(** * GrimoireELK: repository harvesting, backend construction and
      repository filters

    A shallow embedding of three source files of the repository:

    - [utils/get_git_repos.py]            (module [GetGitRepos]),
    - [perceval/backends/backend.py]      (module [PercevalBackend]),
    - [grimoire_elk/elk/utils.py]         (module [ElkUtils]),

    preceded by a small model of Python results and exceptions (module
    [Py]) and of Python's stable [sorted] builtin (module [PySort]).
    The definitions come first; the theorems follow in the modules whose
    names end in [Facts]. *)

From Stdlib Require Import ZArith List Lia Permutation Sorted String Ascii Bool.
Import ListNotations.
Local Open Scope Z_scope.
Local Open Scope list_scope.

(** ** Python results, exceptions and a state-and-exception monad *)
Module Py.

(** The exception classes the three files can meet. *)
Inductive exn : Type :=
| HTTPError (status : Z)        (* requests.exceptions.HTTPError *)
| ConnectionError               (* requests.exceptions.ConnectionError *)
| ChunkedEncodingError          (* requests.exceptions.ChunkedEncodingError *)
| KeyError (k : string)
| ValueError
| AttributeError (attr : string)
| NotImplementedError
| OSError.

(** What running a piece of code gives: a value, a raised exception, or
    [Pending] when the scripted environment has no further answer to
    give (the only way a model run can stop short of the Python run). *)
Inductive result (A : Type) : Type :=
| Returns (a : A)
| Raises (e : exn)
| Pending.
Arguments Returns {A} a.
Arguments Raises {A} e.
Arguments Pending {A}.

(** Code running in a world [W]. *)
Definition M (W A : Type) : Type := W -> result A * W.

Definition ret {W A} (a : A) : M W A := fun w => (Returns a, w).

Definition raise {W A} (e : exn) : M W A := fun w => (Raises e, w).

Definition bind {W A B} (c : M W A) (k : A -> M W B) : M W B :=
  fun w =>
    match c w with
    | (Returns a, w') => k a w'
    | (Raises e, w') => (Raises e, w')
    | (Pending, w') => (Pending, w')
    end.

(** [try: c  except <handles>: h]. *)
Definition try_except {W A} (c : M W A) (handles : exn -> bool) (h : M W A)
  : M W A :=
  fun w =>
    match c w with
    | (Raises e, w') => if handles e then h w' else (Raises e, w')
    | other => other
    end.

(** Lifting a pure fallible computation. *)
Definition lift {W A} (r : result A) : M W A := fun w => (r, w).

Definition of_option {A} (e : exn) (o : option A) : result A :=
  match o with
  | Some a => Returns a
  | None => Raises e
  end.

(** The character [chr(34)] and friends, for the texts the code builds. *)
Definition dq : string := String (Ascii false true false false false true false false) EmptyString.
Definition nl : string := String (Ascii false true false true false false false false) EmptyString.

Fixpoint spaces (n : nat) : string :=
  match n with
  | O => EmptyString
  | S n' => String " "%char (spaces n')
  end.

(** [int(s)] on a decimal numeral: an optional sign followed by digits.
    Any other text is a [ValueError] here; the blanks around the numeral
    and the underscores between digits that Python also reads do not
    occur in the header values the script converts. *)
Definition digit_of (c : ascii) : option Z :=
  let n := Z.of_nat (nat_of_ascii c) in
  if (48 <=? n) && (n <=? 57) then Some (n - 48) else None.

Fixpoint digits_value (acc : Z) (s : string) : option Z :=
  match s with
  | EmptyString => Some acc
  | String c s' =>
      match digit_of c with
      | Some d => digits_value (10 * acc + d) s'
      | None => None
      end
  end.

Definition int (s : string) : result Z :=
  match s with
  | EmptyString => Raises ValueError
  | String c s' =>
      if Ascii.eqb c "-"%char then
        match s' with
        | EmptyString => Raises ValueError
        | _ => of_option ValueError (option_map Z.opp (digits_value 0 s'))
        end
      else if Ascii.eqb c "+"%char then
        match s' with
        | EmptyString => Raises ValueError
        | _ => of_option ValueError (digits_value 0 s')
        end
      else of_option ValueError (digits_value 0 s)
  end.

(** [d[k]] on a dict kept as an association list. *)
Fixpoint getitem {V} (d : list (string * V)) (k : string) : result V :=
  match d with
  | [] => Raises (KeyError k)
  | (k', v) :: d' => if String.eqb k k' then Returns v else getitem d' k
  end.

End Py.

Declare Scope py_scope.
Delimit Scope py_scope with py.
Notation "x <- c ;; k" := (Py.bind c (fun x => k))
  (at level 61, c at next level, right associativity) : py_scope.
Notation "c ;;; k" := (Py.bind c (fun _ => k))
  (at level 61, right associativity) : py_scope.

(** ** Python's [sorted]

    [sorted(l, key=k)] is a stable sort that compares keys with [<] only.
    CPython sorts short runs by binary insertion: each element in turn is
    put into the already sorted prefix, to the right of the elements that
    are not greater.  Longer lists are merged from such runs, to the same
    result: a list has one stable sort ([PySortFacts.ascending_unique]).
    With [reverse=True] CPython reverses the list, runs the same stable
    ascending sort and reverses the result (this is how [listobject.c]
    keeps the reversed sort stable). *)
Module PySort.

Section Keyed.
Context {A : Type}.
Variable key : A -> Z.

(** Put [x] before the first element whose key is strictly greater. *)
Fixpoint insort_right (x : A) (l : list A) : list A :=
  match l with
  | [] => [x]
  | y :: t => if key x <? key y then x :: y :: t else y :: insort_right x t
  end.

Definition list_sort (l : list A) : list A :=
  fold_left (fun acc x => insort_right x acc) l [].

Definition sorted (reverse : bool) (l : list A) : list A :=
  if reverse then rev (list_sort (rev l)) else list_sort l.

(** *** Stable sorts, as a specification reads them

    "Sort ascending (descending) by key; equal keys keep their prior
    relative order."  The head of the list is inserted into the sorted
    tail in front of the first element that may follow it. *)
Fixpoint insert_asc (x : A) (l : list A) : list A :=
  match l with
  | [] => [x]
  | y :: t => if key x <=? key y then x :: y :: t else y :: insert_asc x t
  end.

Fixpoint stable_sort_asc (l : list A) : list A :=
  match l with
  | [] => []
  | x :: t => insert_asc x (stable_sort_asc t)
  end.

Fixpoint insert_desc (x : A) (l : list A) : list A :=
  match l with
  | [] => [x]
  | y :: t => if key y <=? key x then x :: y :: t else y :: insert_desc x t
  end.

Fixpoint stable_sort_desc (l : list A) : list A :=
  match l with
  | [] => []
  | x :: t => insert_desc x (stable_sort_desc t)
  end.

(** The elements of [l] whose key is [k], in the order of [l]. *)
Definition key_class (k : Z) (l : list A) : list A :=
  filter (fun a => key a =? k) l.

Definition ascending : list A -> Prop :=
  StronglySorted (fun a b => key a <= key b).

Definition descending : list A -> Prop :=
  StronglySorted (fun a b => key b <= key a).

(** [l'] is a stable rearrangement of [l]: every key class is intact. *)
Definition stable_of (l l' : list A) : Prop :=
  forall k, key_class k l' = key_class k l.

End Keyed.

End PySort.

(** ** [utils/get_git_repos.py] *)
Module GetGitRepos.
Import Py.
Local Open Scope string_scope.
Local Open Scope list_scope.
Local Open Scope Z_scope.
Local Open Scope py_scope.

Definition GITHUB_API_URL : string := "https://api.github.com".
Definition GITHUB_URL : string := "https://github.com".
Definition NREPOS : Z := 0.

(** One entry of the JSON list GitHub returns for a repository listing,
    with the four keys the script reads. *)
Record repo : Type := mk_repo {
  name : string;
  updated_at : string;
  size : Z;
  fork : bool
}.

(** Values of the query parameters. *)
Inductive param : Type :=
| PInt (n : Z)
| PBool (b : bool)
| PStr (s : string).

Definition get_payload : list (string * param) :=
  [("per_page", PInt 100); ("fork", PBool false);
   ("sort", PStr "updated"); ("direction", PStr "desc")].

(** [token] is [None] or a string; [if token:] holds for a non-empty one. *)
Definition get_headers (token : option string) : list (string * string) :=
  match token with
  | None => []
  | Some "" => []
  | Some t => [("Authorization", ("token " ++ t)%string)]
  end.

(** *** The world the script runs in *)

(** A [requests.Response]: status, headers (looked up by the name as the
    script writes it), the [next] link relation and the decoded JSON
    body. *)
Record response : Type := mk_response {
  status_code : Z;
  headers : list (string * string);
  links_next : option string;
  json : list repo
}.

(** What [requests.get] can meet on the wire instead of a response. *)
Inductive net_error : Type :=
| ConnectionRefused
| ConnectionTimedOut
| BodyCutShort.

(** The exception [requests.get] raises then: a connection that is
    refused or times out is a [ConnectionError]; a body that ends before
    its announced length is a [ChunkedEncodingError], which is not. *)
Definition exn_of (e : net_error) : exn :=
  match e with
  | ConnectionRefused => ConnectionError
  | ConnectionTimedOut => ConnectionError
  | BodyCutShort => ChunkedEncodingError
  end.

Inductive outcome : Type :=
| Answer (r : response)
| NoAnswer (e : net_error).

Record request : Type := mk_request {
  req_url : string;
  req_params : list (string * param);
  req_headers : list (string * string)
}.

Inductive log_entry : Type :=
| Info_rate_limit_wait (seconds_to_reset : Z)
| Debug_getting_repos (url : string)
| Debug_rate_limit (remaining : string)
| Error_can_not_connect
| Debug_repo (updated : string) (sz : Z) (nm : string).

(** [script]: what the network will answer to the requests still to come,
    in order.  [sent]: the requests issued so far.  [clock]: UTC time in
    microseconds since the epoch.  [utc_offset]: seconds the local time
    zone is ahead of UTC.  [slept]: the arguments of the calls to
    [sleep].  [log]: the records handed to [logging]. *)
Record world : Type := mk_world {
  script : list outcome;
  sent : list request;
  clock : Z;
  utc_offset : Z;
  slept : list Z;
  log : list log_entry
}.

Definition requests_get (url : string) (params : list (string * param))
  (hdrs : list (string * string)) : M world response :=
  fun w =>
    match script w with
    | [] => (Pending, w)
    | o :: rest =>
        let w' := mk_world rest (sent w ++ [mk_request url params hdrs])
                    (clock w) (utc_offset w) (slept w) (log w) in
        match o with
        | Answer r => (Returns r, w')
        | NoAnswer e => (Raises (exn_of e), w')
        end
    end.

(** [r.raise_for_status()]: [HTTPError] for 4xx and 5xx. *)
Definition raise_for_status (r : response) : M world unit :=
  if (400 <=? status_code r) && (status_code r <? 600)
  then raise (HTTPError (status_code r))
  else ret tt.

Definition logging (e : log_entry) : M world unit :=
  fun w => (Returns tt,
            mk_world (script w) (sent w) (clock w) (utc_offset w) (slept w)
              (log w ++ [e])).

(** [datetime.utcnow()], as microseconds. *)
Definition utcnow : M world Z := fun w => (Returns (clock w), w).

(** [datetime.fromtimestamp(ts)]: the naive local time, as microseconds. *)
Definition fromtimestamp (ts : Z) : M world Z :=
  fun w => (Returns ((ts + utc_offset w) * 1000000), w).

(** [td.seconds] of a [timedelta] of [us] microseconds: a timedelta is
    normalised to days, 0 <= seconds < 86400 and 0 <= microseconds <
    1000000, and [seconds] is the middle field. *)
Definition timedelta_seconds (us : Z) : Z :=
  (us mod 86400000000) / 1000000.

(** [sleep(secs)] returns [secs] seconds later. *)
Definition sleep (secs : Z) : M world unit :=
  fun w => (Returns tt,
            mk_world (script w) (sent w) (clock w + secs * 1000000)
              (utc_offset w) (slept w ++ [secs]) (log w)).

Definition is_HTTPError (e : exn) : bool :=
  match e with HTTPError _ => true | _ => false end.

Definition is_ConnectionError (e : exn) : bool :=
  match e with ConnectionError => true | _ => false end.

(** *** [get_owner_repos_url]

    Of the two calls inside [try], [requests.get] raises no [HTTPError]:
    the handler is only ever entered from [raise_for_status], with [r]
    bound. *)
Definition get_owner_repos_url (owner : string) (token : option string)
  : M world string :=
  let url_org := (GITHUB_API_URL ++ "/orgs/" ++ owner ++ "/repos")%string in
  let url_user := (GITHUB_API_URL ++ "/users/" ++ owner ++ "/repos")%string in
  r <- requests_get url_org get_payload (get_headers token) ;;
  try_except
    (raise_for_status r ;;; ret url_org)
    is_HTTPError
    (if status_code r =? 403 then
       v <- lift (getitem (headers r) "X-RateLimit-Reset") ;;
       ts <- lift (int v) ;;
       rate_limit_reset_ts <- fromtimestamp ts ;;
       now <- utcnow ;;
       let seconds_to_reset :=
         timedelta_seconds (rate_limit_reset_ts - now) + 1 in
       logging (Info_rate_limit_wait seconds_to_reset) ;;;
       sleep seconds_to_reset ;;;
       ret url_org
     else
       ret url_user).

(** *** [get_repositories] *)

(** Lines 134 to 143: the list the function returns, from the pages it
    gathered.  [parse] stands for [dateutil.parser.parse], read as the
    number of seconds the date denotes. *)
Section Shape.
Variable parse : string -> Z.

Definition shape (all_repos : list repo) (nrepos : Z) : list repo :=
  let nrepos_recent := filter (fun repo => negb (fork repo)) all_repos in
  let nrepos_sorted :=
    PySort.sorted (fun repo => parse (updated_at repo)) true nrepos_recent in
  let nrepos_sorted :=
    if 0 <? nrepos then firstn (Z.to_nat nrepos) nrepos_sorted
    else nrepos_sorted in
  PySort.sorted size false nrepos_sorted.

(** The spec's ResourceFilter, step by step in the spec's words: (1) drop
    every record where [is_fork] is true; (2) sort descending by
    [updated_at]; (3) if [max_count > 0], truncate to the first
    [max_count] entries; (4) re-sort ascending by [size]; both sorts
    stable, equal keys keeping their prior relative order. *)
Definition shape_spec (records : list repo) (max_count : Z) : list repo :=
  let kept := filter (fun r => negb (fork r)) records in
  let ranked := PySort.stable_sort_desc (fun r => parse (updated_at r)) kept in
  let cut :=
    if 0 <? max_count then firstn (Z.to_nat max_count) ranked else ranked in
  PySort.stable_sort_asc size cut.

(** One turn of [while True]: the grown [all_repos] and the next URL, or
    [None] on [break].  Of the calls inside [try], only [requests.get]
    can raise a [ConnectionError], and it does so before [all_repos]
    grows. *)
Definition fetch_page (token : option string) (url : string)
  (all_repos : list repo) : M world (list repo * option string) :=
  logging (Debug_getting_repos url) ;;;
  try_except
    (r <- requests_get url get_payload (get_headers token) ;;
     raise_for_status r ;;;
     let all_repos := all_repos ++ json r in
     remaining <- lift (getitem (headers r) "X-RateLimit-Remaining") ;;
     logging (Debug_rate_limit remaining) ;;;
     ret (all_repos, links_next r))
    is_ConnectionError
    (logging Error_can_not_connect ;;;
     ret (all_repos, None)).

(** The loop, with as many turns as [fuel] allows. *)
Fixpoint fetch_pages (fuel : nat) (token : option string) (url : string)
  (all_repos : list repo) : M world (list repo) :=
  match fuel with
  | O => fun w => (Pending, w)
  | S fuel' =>
      step <- fetch_page token url all_repos ;;
      match step with
      | (all_repos', None) => ret all_repos'
      | (all_repos', Some next_url) => fetch_pages fuel' token next_url all_repos'
      end
  end.

Fixpoint logging_each (l : list log_entry) : M world unit :=
  match l with
  | [] => ret tt
  | e :: l' => logging e ;;; logging_each l'
  end.

(** Every turn of the loop takes one answer off the script, so one turn
    more than the script is long is all the loop can use. *)
Definition get_repositories (owner : string) (token : option string)
  (nrepos : Z) : M world (list repo) :=
  owner_url <- get_owner_repos_url owner token ;;
  all_repos <- (fun w => fetch_pages (S (List.length (script w))) token owner_url [] w) ;;
  let nrepos_sorted := shape all_repos nrepos in
  logging_each
    (map (fun repo => Debug_repo (updated_at repo) (size repo) (name repo))
       nrepos_sorted) ;;;
  ret nrepos_sorted.

End Shape.

(** *** Vocabulary for the statements *)

(** The two endpoints of an owner, and the requests that go to them. *)
Definition org_url (owner : string) : string :=
  (GITHUB_API_URL ++ "/orgs/" ++ owner ++ "/repos")%string.

Definition user_url (owner : string) : string :=
  (GITHUB_API_URL ++ "/users/" ++ owner ++ "/repos")%string.

Definition get_request (url : string) (token : option string) : request :=
  mk_request url get_payload (get_headers token).

(** A response on which [raise_for_status] raises. *)
Definition http_error (r : response) : Prop :=
  400 <= status_code r < 600.

(** A page the loop takes in: no HTTP error, and the header it logs
    is there. *)
Definition page_ok (r : response) : Prop :=
  ~ http_error r /\
  exists v, getitem (headers r) "X-RateLimit-Remaining" = Returns v.

Definition has_next (r : response) : Prop := links_next r <> None.

(** A request that the network leaves unanswered or answers with an HTTP
    error. *)
Definition failed (o : outcome) : Prop :=
  match o with
  | Answer r => http_error r
  | NoAnswer _ => True
  end.

(** The URL a page sends the loop to, and the URLs the loop asks for
    when it starts at [url] and the pages [pages] arrive in turn. *)
Definition next_of (r : response) : string :=
  match links_next r with
  | Some next_url => next_url
  | None => ""
  end.

Fixpoint requested (url : string) (pages : list response) : list string :=
  match pages with
  | [] => []
  | r :: pages' => url :: requested (next_of r) pages'
  end.

(** *** [get_mordred_projects]

    The dict [{owner: {"git": [...], "github": [...]}}], as nested
    association lists; the loop appends one URL to each inner list per
    repository. *)
Definition get_mordred_projects (owner : string) (repos : list repo)
  : list (string * list (string * list string)) :=
  let owner_url := (GITHUB_URL ++ "/" ++ owner ++ "/")%string in
  let '(git, github) :=
    fold_left
      (fun (lists : list string * list string) repo =>
         (fst lists ++ [(owner_url ++ name repo)%string],
          snd lists ++ [(owner_url ++ name repo)%string]))
      repos ([], []) in
  [(owner, [("git", git); ("github", github)])].

(** *** [get_params] and the [__main__] block *)

(** What [parser.parse_args()] hands back. *)
Record params : Type := mk_params {
  arg_debug : bool;
  arg_mordred : bool;
  arg_token : option string;
  arg_owner : option string;
  arg_nrepos : Z
}.

(** What the script lets out besides its requests: lines on standard
    output, the record it logs before writing, and the file it dumps. *)
Inductive output : Type :=
| Print (line : string)
| Info_generating (prj_file : string)
| Dump (prj_file : string)
       (projects : list (string * list (string * list string))).

(** How a run of the script ends. *)
Inductive ending : Type :=
| Finished
| Exited (status : Z)
| Uncaught (e : exn)
| Unanswered.

(** The check [get_params] makes on the parsed arguments: without an
    owner it prints and calls [sys.exit(1)]; [not params.owner] holds
    for [None] and for the empty string. *)
Definition get_params (parsed : params) : (list output * Z) + (string * params) :=
  match arg_owner parsed with
  | None => inl ([Print "owner param is needed"], 1)
  | Some "" => inl ([Print "owner param is needed"], 1)
  | Some owner => inr (owner, parsed)
  end.

Section Main.
Variable parse : string -> Z.

(** The [__main__] block, from the parsed arguments on.
    [config_logging(args.debug)] only sets the level and format of the
    log and leaves no trace here; the projects file is taken to be
    writable, and what [json.dump] writes is kept as the value dumped. *)
Definition main (parsed : params) (w : world) : ending * list output * world :=
  match get_params parsed with
  | inl (printed, status) => (Exited status, printed, w)
  | inr (owner, args) =>
      match get_repositories parse owner (arg_token args) (arg_nrepos args) w with
      | (Returns repos, w') =>
          if negb (arg_mordred args) then
            (Finished, map (fun repo => Print (name repo)) repos, w')
          else
            let prj_file := (owner ++ "-projects.json")%string in
            let projects := get_mordred_projects owner repos in
            (Finished, [Info_generating prj_file; Dump prj_file projects], w')
      | (Raises e, w') => (Uncaught e, [], w')
      | (Pending, w') => (Unanswered, [], w')
      end
  end.

End Main.

End GetGitRepos.

(** ** [perceval/backends/backend.py] *)
Module PercevalBackend.
Import Py.
Local Open Scope string_scope.
Local Open Scope list_scope.
Local Open Scope Z_scope.
Local Open Scope py_scope.

(** The methods the base class leaves to its subclasses.  [None] is the
    base class's own body, [raise NotImplementedError]. *)
Record methods : Type := mk_methods {
  get_id : option string;
  _get_name : option string;
  _get_field_unique_id : option string
}.

(** A JSON item: a dict, its values as [str] prints them. *)
Definition item : Type := list (string * string).

Record Elastic : Type := mk_Elastic {
  index_url : string
}.

(** Modelled from the spec: [CacheItems] of [perceval.cache], which is
    not part of the sources at hand.  The spec's CacheLayer is an on-disk
    record of raw items owned by one backend instance, with [put],
    [iterate] and [clear]; the handle keeps the two constructor
    arguments, and the items live in the world. *)
Record CacheItems : Type := mk_CacheItems {
  cache_dir : string;
  cache_field_id : string
}.

(** The instance attributes. [elastic] is unset until [set_elastic]. *)
Record Backend : Type := mk_Backend {
  cache : CacheItems;
  use_cache : bool;
  incremental : bool;
  elastic : option Elastic
}.

Inductive log_entry : Type :=
| Info_restore_not_implemented
| Debug_adding_items (n : nat) (backend_name : string) (url : string).

(** [home]: what [expanduser] gives for the home directory.  [dirs]: the
    directories that exist.  [writable]: whether [os.makedirs] may
    create one.  [cache_items]: the items in this backend's cache.
    [es_puts]: the bulk writes submitted to ElasticSearch, as URL and
    body.  [es_reachable]: whether [requests.put] gets through. *)
Record world : Type := mk_world {
  home : string;
  dirs : list string;
  writable : bool;
  cache_items : list item;
  es_puts : list (string * string);
  es_reachable : bool;
  log : list log_entry
}.

Definition logging (e : log_entry) : M world unit :=
  fun w => (Returns tt,
            mk_world (home w) (dirs w) (writable w) (cache_items w)
              (es_puts w) (es_reachable w) (log w ++ [e])).

Definition expanduser_home : M world string :=
  fun w => (Returns (home w), w).

Definition os_path_isdir (d : string) : M world bool :=
  fun w => (Returns (existsb (String.eqb d) (dirs w)), w).

Definition os_makedirs (d : string) : M world unit :=
  fun w =>
    if writable w
    then (Returns tt,
          mk_world (home w) (d :: dirs w) (writable w) (cache_items w)
            (es_puts w) (es_reachable w) (log w))
    else (Raises OSError, w).

(** [posixpath.join] of two components. *)
Definition starts_with_slash (s : string) : bool :=
  match s with
  | String c _ => Ascii.eqb c "/"%char
  | EmptyString => false
  end.

Fixpoint ends_with_slash (s : string) : bool :=
  match s with
  | EmptyString => false
  | String c EmptyString => Ascii.eqb c "/"%char
  | String _ s' => ends_with_slash s'
  end.

Definition join2 (path b : string) : string :=
  if starts_with_slash b then b
  else if orb (String.eqb path "") (ends_with_slash path) then (path ++ b)%string
  else (path ++ "/" ++ b)%string.

Definition join (a : string) (p : list string) : string :=
  fold_left join2 p a.

(** Modelled from the spec: the constructor and [clean] of [CacheItems]
    ([perceval.cache] is not part of the sources at hand).  The
    constructor makes the handle; [clean] is the spec's [clear], which
    replaces the cached entries wholesale by none. *)
Definition CacheItems_new (dir field_id : string) : M world CacheItems :=
  ret (mk_CacheItems dir field_id).

Definition CacheItems_clean (c : CacheItems) : M world unit :=
  fun w => (Returns tt,
            mk_world (home w) (dirs w) (writable w) []
              (es_puts w) (es_reachable w) (log w)).

Definition abstract (m : option string) : M world string :=
  lift (of_option NotImplementedError m).

Section Class.
Variable cls : methods.

Definition _get_storage_dir : M world string :=
  home <- expanduser_home ;;
  nm <- abstract (_get_name cls) ;;
  id <- abstract (get_id cls) ;;
  ret (join home [".perceval"; nm; id]).

Definition set_elastic (self : Backend) (e : Elastic) : Backend :=
  mk_Backend (cache self) (use_cache self) (incremental self) (Some e).

Definition set_incremental (self : Backend) (b : bool) : Backend :=
  mk_Backend (cache self) (use_cache self) b (elastic self).

Definition _restore_state (self : Backend) : M world Backend :=
  logging Info_restore_not_implemented ;;;
  ret (set_incremental self false).

Definition __init__ (use_cache_arg incremental_arg : bool) : M world Backend :=
  dir <- _get_storage_dir ;;
  field_id <- abstract (_get_field_unique_id cls) ;;
  c <- CacheItems_new dir field_id ;;
  let self := mk_Backend c use_cache_arg incremental_arg None in
  dump_dir <- _get_storage_dir ;;
  isdir <- os_path_isdir dump_dir ;;
  (if negb isdir then os_makedirs dump_dir else ret tt) ;;;
  let self := if use_cache self then set_incremental self false else self in
  if incremental self then
    _restore_state self
  else
    (if negb (use_cache self) then CacheItems_clean (cache self) else ret tt) ;;;
    ret self.

(** [json_dumps] stands for [json.dumps]. *)
Variable json_dumps : item -> string.

(** The body of [for item in json_items]. *)
Definition bulk_line (field_id : string) (bulk_json : string) (it : item)
  : result string :=
  let data_json := json_dumps it in
  match getitem it field_id with
  | Returns id =>
      let bulk_json :=
        (bulk_json ++ "{" ++ dq ++ "index" ++ dq ++ " : {" ++ dq ++ "_id" ++ dq
           ++ " : " ++ dq ++ id ++ dq ++ " } }" ++ nl)%string in
      Returns (bulk_json ++ data_json ++ nl)%string
  | Raises e => Raises e
  | Pending => Pending
  end.

Fixpoint bulk_lines (field_id : string) (bulk_json : string)
  (json_items : list item) : result string :=
  match json_items with
  | [] => Returns bulk_json
  | it :: rest =>
      match bulk_line field_id bulk_json it with
      | Returns bulk_json' => bulk_lines field_id bulk_json' rest
      | Raises e => Raises e
      | Pending => Pending
      end
  end.

Definition requests_put (url data : string) : M world unit :=
  fun w =>
    let w' := mk_world (home w) (dirs w) (writable w) (cache_items w)
                (es_puts w ++ [(url, data)]) (es_reachable w) (log w) in
    if es_reachable w then (Returns tt, w') else (Raises ConnectionError, w').

Definition _items_state_to_es (self : Backend) (json_items : list item)
  : M world unit :=
  match json_items with
  | [] => ret tt
  | _ :: _ =>
      field_id <- abstract (_get_field_unique_id cls) ;;
      let elasticsearch_type := "state" in
      es <- lift (of_option (AttributeError "elastic") (elastic self)) ;;
      let url := (index_url es ++ "/" ++ elasticsearch_type ++ "/_bulk")%string in
      nm <- abstract (_get_name cls) ;;
      logging (Debug_adding_items (List.length json_items) nm url) ;;;
      bulk_json <- lift (bulk_lines field_id "" json_items) ;;
      requests_put url bulk_json
  end.

End Class.

(** *** Vocabulary for the statements *)

(** The spec's FRESH state, read off the attributes: neither replaying
    the cache nor resuming from a stored state. *)
Definition ends_fresh (self : Backend) : Prop :=
  use_cache self = false /\ incremental self = false.

(** Every abstract method is overridden. *)
Definition implemented (cls : methods) : Prop :=
  get_id cls <> None /\ _get_name cls <> None /\
  _get_field_unique_id cls <> None.

(** [os.path.isdir], read off a world. *)
Definition isdir (w : world) (d : string) : bool :=
  existsb (String.eqb d) (dirs w).

(** The two lines the bulk body carries for one item whose unique id is
    [id]: the index directive and the document. *)
Definition bulk_entry (json_dumps : item -> string) (id : string) (it : item)
  : string :=
  ("{" ++ dq ++ "index" ++ dq ++ " : {" ++ dq ++ "_id" ++ dq
     ++ " : " ++ dq ++ id ++ dq ++ " } }" ++ nl ++ json_dumps it ++ nl)%string.

(** The unique id of an item, empty when the key is missing. *)
Definition id_of (field_id : string) (it : item) : string :=
  match getitem it field_id with
  | Returns id => id
  | _ => ""
  end.

Definition has_key (field_id : string) (it : item) : Prop :=
  exists id, getitem it field_id = Returns id.

End PercevalBackend.

(** ** [grimoire_elk/elk/utils.py] *)
Module ElkUtils.
Import Py.
Local Open Scope string_scope.
Local Open Scope list_scope.

(** A Python value as the filters have them: a string or a dict. *)
#[warnings="-register-all"]
Inductive pyobj : Type :=
| PStr (s : string)
| PDict (d : list (string * pyobj)).

(** The two attributes the function reads off a backend object. *)
Record perceval_backend_obj : Type := mk_backend_obj {
  origin : string;
  tag : string
}.

(** [text % (field, value)] for the term template of lines 62 to 66. *)
Definition term_text (field value : string) : string :=
  nl ++ spaces 16 ++ "{" ++ dq ++ "term" ++ dq ++ ":" ++ nl
     ++ spaces 20 ++ "{ " ++ dq ++ field ++ dq ++ " : " ++ dq ++ value ++ dq ++ "  }" ++ nl
     ++ spaces 16 ++ "}" ++ nl
     ++ spaces 12.

Section Json.
(** [json_loads] stands for [json.loads]; [None] is a text it rejects
    with a [ValueError]. *)
Variable json_loads : string -> option pyobj.

Definition get_repository_filter (perceval_backend : option perceval_backend_obj)
  (perceval_backend_name : string) (term : bool) : result pyobj :=
  let filter_ := PDict [] in
  match perceval_backend with
  | None => Returns filter_
  | Some backend =>
      let field := "origin" in
      let value := origin backend in
      let '(field, value) :=
        if existsb (String.eqb perceval_backend_name)
             ["meetup"; "nntp"; "stackexchange"; "jira"]
        then ("tag", tag backend)
        else (field, value) in
      let built :=
        if negb term
        then Returns (PDict [("name", PStr field); ("value", PStr value)])
        else of_option ValueError (json_loads (term_text field value)) in
      match built with
      | Returns filter_ =>
          let filter_ := if String.eqb value "" then PDict [] else filter_ in
          Returns filter_
      | Raises e => Raises e
      | Pending => Pending
      end
  end.

End Json.

(** *** Vocabulary for the statements *)

(** The value the function selects: the tag for the four sources keyed
    on it, the origin for every other source. *)
Definition selected_value (backend : perceval_backend_obj)
  (perceval_backend_name : string) : string :=
  if existsb (String.eqb perceval_backend_name)
       ["meetup"; "nntp"; "stackexchange"; "jira"]
  then tag backend
  else origin backend.

End ElkUtils.

(** ** Sample inputs

    Concrete worlds and records on which the statements below are also
    run. *)
Module Samples.
Import Py.
Local Open Scope string_scope.
Local Open Scope list_scope.
Local Open Scope Z_scope.

(** A stand-in for [dateutil.parser.parse] on the timestamps GitHub
    sends ([2016-11-03T15:54:00Z]): the digits of the text, read as one
    number, which orders such timestamps as their dates do. *)
Fixpoint digits_of (acc : Z) (s : string) : Z :=
  match s with
  | EmptyString => acc
  | String c s' =>
      match digit_of c with
      | Some d => digits_of (10 * acc + d) s'
      | None => digits_of acc s'
      end
  end.

Definition parse_iso (s : string) : Z := digits_of 0 s.

Definition ten_repos : list GetGitRepos.repo :=
  [ GetGitRepos.mk_repo "perceval"    "2016-11-01T10:00:00Z" 900 false;
    GetGitRepos.mk_repo "arthur"      "2016-11-09T10:00:00Z" 400 false;
    GetGitRepos.mk_repo "grimoireelk" "2016-11-03T10:00:00Z" 700 false;
    GetGitRepos.mk_repo "sortinghat"  "2016-11-10T10:00:00Z" 800 false;
    GetGitRepos.mk_repo "kibiter"     "2016-11-02T10:00:00Z" 100 false;
    GetGitRepos.mk_repo "mordred"     "2016-11-08T10:00:00Z" 600 false;
    GetGitRepos.mk_repo "panels"      "2016-11-04T10:00:00Z" 300 false;
    GetGitRepos.mk_repo "use_cases"   "2016-11-05T10:00:00Z" 200 false;
    GetGitRepos.mk_repo "training"    "2016-11-06T10:00:00Z" 500 false;
    GetGitRepos.mk_repo "reports"     "2016-11-07T10:00:00Z" 150 false ].

Definition owner : string := "grimoirelab".

Definition ok_headers : list (string * string) :=
  [("X-RateLimit-Remaining", "57")].

Definition page_1 : GetGitRepos.response :=
  GetGitRepos.mk_response 200 ok_headers
    (Some "https://api.github.com/organizations/1/repos?page=2")
    (firstn 2 ten_repos).

Definition page_2 : GetGitRepos.response :=
  GetGitRepos.mk_response 200 ok_headers None (firstn 1 (skipn 2 ten_repos)).

Definition probe_ok : GetGitRepos.response :=
  GetGitRepos.mk_response 200 ok_headers None [].

Definition not_found : GetGitRepos.response :=
  GetGitRepos.mk_response 404 [] None [].

Definition rate_limited : GetGitRepos.response :=
  GetGitRepos.mk_response 403
    [("X-RateLimit-Remaining", "0"); ("X-RateLimit-Reset", "1478185205")]
    None [].

(** A 403 for another reason than the hourly limit: calls are left. *)
Definition forbidden : GetGitRepos.response :=
  GetGitRepos.mk_response 403
    [("X-RateLimit-Remaining", "57"); ("X-RateLimit-Reset", "1478185205")]
    None [].

Definition world_of (script : list GetGitRepos.outcome) (clock_us : Z)
  : GetGitRepos.world :=
  GetGitRepos.mk_world script [] clock_us 0 [] [].

(** The connection drops after the first page. *)
Definition w_partial : GetGitRepos.world :=
  world_of [GetGitRepos.Answer probe_ok; GetGitRepos.Answer page_1;
            GetGitRepos.NoAnswer GetGitRepos.ConnectionRefused;
            GetGitRepos.Answer page_2] 1478185200000000.

(** Two pages, the second without [next] link. *)
Definition w_full : GetGitRepos.world :=
  world_of [GetGitRepos.Answer probe_ok; GetGitRepos.Answer page_1;
            GetGitRepos.Answer page_2; GetGitRepos.Answer page_2]
    1478185200000000.

(** Neither endpoint knows the owner. *)
Definition w_unknown_owner : GetGitRepos.world :=
  world_of [GetGitRepos.Answer not_found; GetGitRepos.Answer not_found;
            GetGitRepos.Answer page_2] 1478185200000000.

(** The limit is exhausted; the reset is 4.5 seconds ahead of the clock. *)
Definition w_limited : GetGitRepos.world :=
  world_of [GetGitRepos.Answer rate_limited] 1478185200500000.

(** The same, with the clock on a whole second, 5 seconds before. *)
Definition w_limited_whole : GetGitRepos.world :=
  world_of [GetGitRepos.Answer rate_limited] 1478185200000000.

(** The same again, on a machine whose local time is one hour ahead of
    UTC. *)
Definition w_limited_cet : GetGitRepos.world :=
  GetGitRepos.mk_world [GetGitRepos.Answer rate_limited] []
    1478185200000000 3600 [] [].

(** The reset lies 10 seconds in the past. *)
Definition w_limited_late : GetGitRepos.world :=
  world_of [GetGitRepos.Answer rate_limited] 1478185215000000.

(** A 403 with calls left. *)
Definition w_forbidden : GetGitRepos.world :=
  world_of [GetGitRepos.Answer forbidden] 1478185200000000.

(** The probe finds nobody listening. *)
Definition w_refused_probe : GetGitRepos.world :=
  world_of [GetGitRepos.NoAnswer GetGitRepos.ConnectionRefused;
            GetGitRepos.Answer page_2] 1478185200000000.

(** A 403 that carries no reset time. *)
Definition limited_no_reset : GetGitRepos.response :=
  GetGitRepos.mk_response 403 [("X-RateLimit-Remaining", "0")] None [].

Definition w_no_reset : GetGitRepos.world :=
  world_of [GetGitRepos.Answer limited_no_reset; GetGitRepos.Answer page_2]
    1478185200000000.

(** The second page is answered with a 404. *)
Definition w_error_page : GetGitRepos.world :=
  world_of [GetGitRepos.Answer probe_ok; GetGitRepos.Answer page_1;
            GetGitRepos.Answer not_found; GetGitRepos.Answer page_2]
    1478185200000000.

(** The second page comes without the header the loop logs. *)
Definition bare_page : GetGitRepos.response :=
  GetGitRepos.mk_response 200 [] None (firstn 1 (skipn 2 ten_repos)).

Definition w_bare_page : GetGitRepos.world :=
  world_of [GetGitRepos.Answer probe_ok; GetGitRepos.Answer page_1;
            GetGitRepos.Answer bare_page; GetGitRepos.Answer page_2]
    1478185200000000.

(** Command lines: [-o grimoirelab -n 1], the same with [-m], and one
    without [-o]. *)
Definition args_plain : GetGitRepos.params :=
  GetGitRepos.mk_params false false None (Some owner) 1.

Definition args_mordred : GetGitRepos.params :=
  GetGitRepos.mk_params false true None (Some owner) 1.


(** A 403 whose reset time is no numeral. *)
Definition limited_bad_reset : GetGitRepos.response :=
  GetGitRepos.mk_response 403 [("X-RateLimit-Reset", "soon")] None [].

Definition w_bad_reset : GetGitRepos.world :=
  world_of [GetGitRepos.Answer limited_bad_reset] 1478185200000000.

(** A backend class with its three methods, and its world. *)
Definition git_class : PercevalBackend.methods :=
  PercevalBackend.mk_methods (Some "grimoirelab_perceval") (Some "git")
    (Some "commit").

Definition cached_item : PercevalBackend.item :=
  [("commit", "4b3c1f0"); ("Author", "acs")].

Definition w_backend : PercevalBackend.world :=
  PercevalBackend.mk_world "/home/acs" [] true [cached_item] [] true [].

Definition a_backend : PercevalBackend.Backend :=
  PercevalBackend.mk_Backend
    (PercevalBackend.mk_CacheItems "/home/acs/.perceval/git/grimoirelab_perceval"
       "commit")
    false false
    (Some (PercevalBackend.mk_Elastic "http://127.0.0.1:9200/git")).


Definition w_readonly : PercevalBackend.world :=
  PercevalBackend.mk_world "/home/acs" [] false [cached_item] [] true [].

Definition item_without_id : PercevalBackend.item :=
  [("Author", "acs")].

Definition an_elastic : PercevalBackend.Elastic :=
  PercevalBackend.mk_Elastic "http://127.0.0.1:9200/git".

(** A stand-in for [json.dumps]: the keys and values, one after the other. *)
Definition dumps (it : PercevalBackend.item) : string :=
  String.concat "," (map (fun kv => (fst kv ++ ":" ++ snd kv)%string) it).

(** A stand-in for [json.loads] that reads the two term texts with an
    empty value and rejects every other text. *)
Definition loads (text : string) : option ElkUtils.pyobj :=
  if String.eqb text (ElkUtils.term_text "origin" "") then
    Some (ElkUtils.PDict [("term", ElkUtils.PDict [("origin", ElkUtils.PStr "")])])
  else if String.eqb text (ElkUtils.term_text "tag" "") then
    Some (ElkUtils.PDict [("term", ElkUtils.PDict [("tag", ElkUtils.PStr "")])])
  else None.

Definition multi_origin : ElkUtils.perceval_backend_obj :=
  ElkUtils.mk_backend_obj "" "".

(** Two Jira backends on one server, with the same product as tag. *)
Definition jira_a : ElkUtils.perceval_backend_obj :=
  ElkUtils.mk_backend_obj "https://jira.example.org" "PROJ".

Definition jira_b : ElkUtils.perceval_backend_obj :=
  ElkUtils.mk_backend_obj "" "PROJ".

End Samples.

(** * Theorems *)

(** ** Stable sorting *)
Module PySortFacts.
Import PySort.

Section Keyed.
Context {A : Type}.
Variable key : A -> Z.

Lemma key_class_cons (k : Z) (x : A) (l : list A) :
  key_class key k (x :: l) =
  (if key x =? k then [x] else []) ++ key_class key k l.
Proof. unfold key_class. simpl. destruct (key x =? k); reflexivity. Qed.

Lemma key_class_app (k : Z) (l1 l2 : list A) :
  key_class key k (l1 ++ l2) = key_class key k l1 ++ key_class key k l2.
Proof. apply filter_app. Qed.

Lemma key_class_In (k : Z) (x : A) (l : list A) :
  In x (key_class key k l) <-> In x l /\ key x = k.
Proof.
  unfold key_class. rewrite filter_In, Z.eqb_eq. reflexivity.
Qed.

Lemma key_class_none (k : Z) (l : list A) :
  Forall (fun a => key a <> k) l -> key_class key k l = [].
Proof.
  induction 1 as [|a l Ha _ IH]; [reflexivity|].
  rewrite key_class_cons, IH.
  destruct (Z.eqb_spec (key a) k); [contradiction | reflexivity].
Qed.

Lemma stable_of_In (l l' : list A) (x : A) :
  stable_of key l l' -> In x l' -> In x l.
Proof.
  intros Hst Hin.
  assert (H : In x (key_class key (key x) l')) by (apply key_class_In; auto).
  rewrite Hst in H. apply key_class_In in H. tauto.
Qed.

(** *** A sorted list is determined by its key classes *)
Section Unique.
Variable ord : Z -> Z -> Prop.
Hypothesis ord_antisym : forall a b, ord a b -> ord b a -> a = b.

Lemma sorted_head_key (a b : A) (t1 t2 : list A) :
  StronglySorted (fun x y => ord (key x) (key y)) (a :: t1) ->
  StronglySorted (fun x y => ord (key x) (key y)) (b :: t2) ->
  (forall k, key_class key k (a :: t1) = key_class key k (b :: t2)) ->
  key a = key b.
Proof.
  intros S1 S2 Hcls.
  apply StronglySorted_inv in S1 as [_ F1].
  apply StronglySorted_inv in S2 as [_ F2].
  rewrite Forall_forall in F1, F2.
  assert (Ha : In a (b :: t2)).
  { assert (H : In a (key_class key (key a) (a :: t1)))
      by (apply key_class_In; simpl; auto).
    rewrite Hcls in H. apply key_class_In in H. tauto. }
  assert (Hb : In b (a :: t1)).
  { assert (H : In b (key_class key (key b) (b :: t2)))
      by (apply key_class_In; simpl; auto).
    rewrite <- Hcls in H. apply key_class_In in H. tauto. }
  destruct Ha as [->|Ha]; [reflexivity|].
  destruct Hb as [->|Hb]; [reflexivity|].
  apply ord_antisym; [apply F1, Hb | apply F2, Ha].
Qed.

Lemma sorted_unique (l1 l2 : list A) :
  StronglySorted (fun x y => ord (key x) (key y)) l1 ->
  StronglySorted (fun x y => ord (key x) (key y)) l2 ->
  (forall k, key_class key k l1 = key_class key k l2) ->
  l1 = l2.
Proof.
  revert l2. induction l1 as [|a t1 IH]; intros [|b t2] S1 S2 Hcls.
  - reflexivity.
  - specialize (Hcls (key b)). rewrite key_class_cons, Z.eqb_refl in Hcls.
    discriminate.
  - specialize (Hcls (key a)). rewrite key_class_cons, Z.eqb_refl in Hcls.
    discriminate.
  - pose proof (sorted_head_key a b t1 t2 S1 S2 Hcls) as Hk.
    assert (Hab : a = b).
    { specialize (Hcls (key a)).
      rewrite !key_class_cons, <- Hk, Z.eqb_refl in Hcls.
      simpl in Hcls. congruence. }
    subst b. f_equal.
    apply IH.
    + apply StronglySorted_inv in S1. tauto.
    + apply StronglySorted_inv in S2. tauto.
    + intros k. specialize (Hcls k). rewrite !key_class_cons in Hcls.
      apply app_inv_head in Hcls. exact Hcls.
Qed.

End Unique.

Lemma ascending_unique (l1 l2 : list A) :
  ascending key l1 -> ascending key l2 -> stable_of key l1 l2 -> l1 = l2.
Proof.
  intros S1 S2 Hst. apply (sorted_unique Z.le); auto using Z.le_antisymm.
Qed.

Lemma descending_unique (l1 l2 : list A) :
  descending key l1 -> descending key l2 -> stable_of key l1 l2 -> l1 = l2.
Proof.
  intros S1 S2 Hst.
  apply (sorted_unique (fun a b => b <= a)); auto.
  intros a b H1 H2. lia.
Qed.

(** *** Sortedness of pieces and of reversals *)
Lemma StronglySorted_app (R : A -> A -> Prop) (l1 l2 : list A) :
  StronglySorted R l1 -> StronglySorted R l2 ->
  (forall x y, In x l1 -> In y l2 -> R x y) ->
  StronglySorted R (l1 ++ l2).
Proof.
  induction 1 as [|a l1 S1 IH F1]; intros S2 H; simpl; [assumption|].
  constructor.
  - apply IH; [assumption|]. intros x y Hx Hy. apply H; simpl; auto.
  - apply Forall_app. split; [assumption|].
    apply Forall_forall. intros y Hy. apply H; simpl; auto.
Qed.

Lemma StronglySorted_app_inv (R : A -> A -> Prop) (l1 l2 : list A) :
  StronglySorted R (l1 ++ l2) ->
  StronglySorted R l1 /\ StronglySorted R l2 /\
  (forall x y, In x l1 -> In y l2 -> R x y).
Proof.
  induction l1 as [|a l1 IH]; simpl; intros S.
  - repeat split; [constructor | assumption | intros x y []].
  - apply StronglySorted_inv in S as [S F].
    destruct (IH S) as (S1 & S2 & H).
    apply Forall_app in F as [F1 F2].
    repeat split; [constructor; assumption | assumption |].
    intros x y [->|Hx] Hy; [|auto].
    rewrite Forall_forall in F2. auto.
Qed.

Lemma StronglySorted_rev (R : A -> A -> Prop) (l : list A) :
  StronglySorted R l -> StronglySorted (fun a b => R b a) (rev l).
Proof.
  induction 1 as [|a l S IH F]; simpl; [constructor|].
  apply StronglySorted_app; [assumption | repeat constructor |].
  intros x y Hx [<-|[]]. apply in_rev in Hx.
  rewrite Forall_forall in F. auto.
Qed.

Lemma StronglySorted_filter (R : A -> A -> Prop) (p : A -> bool) (l : list A) :
  StronglySorted R l -> StronglySorted R (filter p l).
Proof.
  induction 1 as [|a l S IH F]; simpl; [constructor|].
  destruct (p a); [|assumption].
  constructor; [assumption|].
  rewrite Forall_forall in F |- *. intros y Hy. apply filter_In in Hy.
  apply F, Hy.
Qed.

Lemma StronglySorted_firstn (R : A -> A -> Prop) (n : nat) (l : list A) :
  StronglySorted R l -> StronglySorted R (firstn n l).
Proof.
  intros S. rewrite <- (firstn_skipn n l) in S.
  apply StronglySorted_app_inv in S. tauto.
Qed.

Lemma Forall_insort_right (P : A -> Prop) (x : A) (l : list A) :
  P x -> Forall P l -> Forall P (insort_right key x l).
Proof.
  intros Hx. induction 1 as [|y t Hy Ht IH]; simpl.
  - auto.
  - destruct (key x <? key y); auto.
Qed.

Lemma Forall_insert_asc (P : A -> Prop) (x : A) (l : list A) :
  P x -> Forall P l -> Forall P (insert_asc key x l).
Proof.
  intros Hx. induction 1 as [|y t Hy Ht IH]; simpl.
  - auto.
  - destruct (key x <=? key y); auto.
Qed.

Lemma Forall_insert_desc (P : A -> Prop) (x : A) (l : list A) :
  P x -> Forall P l -> Forall P (insert_desc key x l).
Proof.
  intros Hx. induction 1 as [|y t Hy Ht IH]; simpl.
  - auto.
  - destruct (key y <=? key x); auto.
Qed.

(** *** The binary insertion of CPython *)
Lemma insort_right_ascending (x : A) (l : list A) :
  ascending key l -> ascending key (insort_right key x l).
Proof.
  unfold ascending. induction 1 as [|y t S IH F]; simpl.
  - repeat constructor.
  - destruct (Z.ltb_spec (key x) (key y)).
    + constructor; [constructor; assumption|].
      constructor; [lia|].
      eapply Forall_impl; [|exact F]. simpl. intros; lia.
    + constructor; [assumption|].
      apply Forall_insort_right; [lia | assumption].
Qed.

Lemma insort_right_class (k : Z) (x : A) (l : list A) :
  ascending key l ->
  key_class key k (insort_right key x l) =
  key_class key k l ++ (if key x =? k then [x] else []).
Proof.
  unfold ascending. induction 1 as [|y t S IH F]; cbn [insort_right].
  - rewrite key_class_cons. unfold key_class. simpl. apply app_nil_r.
  - destruct (Z.ltb_spec (key x) (key y)).
    + rewrite (key_class_cons k x).
      destruct (Z.eqb_spec (key x) k) as [Hk|Hk].
      * rewrite (key_class_none k (y :: t)); [reflexivity|].
        constructor; [lia|].
        eapply Forall_impl; [|exact F]. simpl. intros; lia.
      * rewrite app_nil_r. reflexivity.
    + rewrite !(key_class_cons k y), IH, app_assoc. reflexivity.
Qed.

Lemma fold_insort_right_spec (l acc : list A) :
  ascending key acc ->
  ascending key (fold_left (fun acc x => insort_right key x acc) l acc) /\
  forall k,
    key_class key k (fold_left (fun acc x => insort_right key x acc) l acc) =
    key_class key k acc ++ key_class key k l.
Proof.
  revert acc. induction l as [|x l IH]; intros acc Hacc; cbn [fold_left].
  - split; [assumption|]. intros k.
    unfold key_class at 3. simpl. rewrite app_nil_r. reflexivity.
  - destruct (IH (insort_right key x acc)) as [S C].
    { apply insort_right_ascending, Hacc. }
    split; [assumption|]. intros k.
    rewrite C, insort_right_class, key_class_cons, app_assoc by assumption.
    reflexivity.
Qed.

Lemma list_sort_ascending (l : list A) : ascending key (list_sort key l).
Proof. apply fold_insort_right_spec. constructor. Qed.

Lemma list_sort_stable (l : list A) : stable_of key l (list_sort key l).
Proof.
  intros k. unfold list_sort.
  destruct (fold_insort_right_spec l []) as [_ C]; [constructor|].
  rewrite C. reflexivity.
Qed.

Lemma sorted_reverse_descending (l : list A) :
  descending key (sorted key true l).
Proof.
  unfold sorted, descending.
  apply (StronglySorted_rev (fun a b => key a <= key b)).
  apply list_sort_ascending.
Qed.

Lemma sorted_reverse_stable (l : list A) :
  stable_of key l (sorted key true l).
Proof.
  intros k. unfold sorted, key_class.
  rewrite filter_rev.
  fold (key_class key k (list_sort key (rev l))).
  rewrite list_sort_stable. unfold key_class.
  rewrite filter_rev, rev_involutive. reflexivity.
Qed.

(** *** The stable sorts of the specification *)
Lemma insert_asc_ascending (x : A) (l : list A) :
  ascending key l -> ascending key (insert_asc key x l).
Proof.
  unfold ascending. induction 1 as [|y t S IH F]; simpl.
  - repeat constructor.
  - destruct (Z.leb_spec (key x) (key y)).
    + constructor; [constructor; assumption|].
      constructor; [lia|].
      eapply Forall_impl; [|exact F]. simpl. intros; lia.
    + constructor; [assumption|].
      apply Forall_insert_asc; [lia | assumption].
Qed.

Lemma insert_asc_class (k : Z) (x : A) (l : list A) :
  key_class key k (insert_asc key x l) = key_class key k (x :: l).
Proof.
  induction l as [|y t IH]; cbn [insert_asc]; [reflexivity|].
  destruct (Z.leb_spec (key x) (key y)); [reflexivity|].
  rewrite (key_class_cons k y), IH, !key_class_cons.
  destruct (Z.eqb_spec (key x) k), (Z.eqb_spec (key y) k);
    try reflexivity; lia.
Qed.

Lemma stable_sort_asc_ascending (l : list A) :
  ascending key (stable_sort_asc key l).
Proof.
  induction l; simpl; [constructor | apply insert_asc_ascending; assumption].
Qed.

Lemma stable_sort_asc_stable (l : list A) :
  stable_of key l (stable_sort_asc key l).
Proof.
  intros k. induction l as [|x l IH]; cbn [stable_sort_asc]; [reflexivity|].
  rewrite insert_asc_class, !key_class_cons, IH. reflexivity.
Qed.

Lemma insert_desc_descending (x : A) (l : list A) :
  descending key l -> descending key (insert_desc key x l).
Proof.
  unfold descending. induction 1 as [|y t S IH F]; simpl.
  - repeat constructor.
  - destruct (Z.leb_spec (key y) (key x)).
    + constructor; [constructor; assumption|].
      constructor; [lia|].
      eapply Forall_impl; [|exact F]. simpl. intros; lia.
    + constructor; [assumption|].
      apply Forall_insert_desc; [lia | assumption].
Qed.

Lemma insert_desc_class (k : Z) (x : A) (l : list A) :
  key_class key k (insert_desc key x l) = key_class key k (x :: l).
Proof.
  induction l as [|y t IH]; cbn [insert_desc]; [reflexivity|].
  destruct (Z.leb_spec (key y) (key x)); [reflexivity|].
  rewrite (key_class_cons k y), IH, !key_class_cons.
  destruct (Z.eqb_spec (key x) k), (Z.eqb_spec (key y) k);
    try reflexivity; lia.
Qed.

Lemma stable_sort_desc_descending (l : list A) :
  descending key (stable_sort_desc key l).
Proof.
  induction l; simpl; [constructor | apply insert_desc_descending; assumption].
Qed.

Lemma stable_sort_desc_stable (l : list A) :
  stable_of key l (stable_sort_desc key l).
Proof.
  intros k. induction l as [|x l IH]; cbn [stable_sort_desc]; [reflexivity|].
  rewrite insert_desc_class, !key_class_cons, IH. reflexivity.
Qed.

(** *** Python's [sorted] is the stable sort of the specification *)
Lemma sorted_forward (l : list A) :
  sorted key false l = stable_sort_asc key l.
Proof.
  apply ascending_unique.
  - apply list_sort_ascending.
  - apply stable_sort_asc_ascending.
  - intros k. rewrite stable_sort_asc_stable.
    symmetry. apply list_sort_stable.
Qed.

Lemma sorted_reverse (l : list A) :
  sorted key true l = stable_sort_desc key l.
Proof.
  apply descending_unique.
  - apply sorted_reverse_descending.
  - apply stable_sort_desc_descending.
  - intros k. rewrite stable_sort_desc_stable.
    symmetry. apply sorted_reverse_stable.
Qed.

(** *** Consequences: permutations, fixed points, filters *)
Lemma insert_asc_perm (x : A) (l : list A) :
  Permutation (insert_asc key x l) (x :: l).
Proof.
  induction l as [|y t IH]; simpl; [reflexivity|].
  destruct (key x <=? key y); [reflexivity|].
  rewrite IH. apply perm_swap.
Qed.

Lemma stable_sort_asc_perm (l : list A) :
  Permutation (stable_sort_asc key l) l.
Proof.
  induction l as [|x l IH]; simpl; [reflexivity|].
  rewrite insert_asc_perm. apply perm_skip, IH.
Qed.

Lemma insert_desc_perm (x : A) (l : list A) :
  Permutation (insert_desc key x l) (x :: l).
Proof.
  induction l as [|y t IH]; simpl; [reflexivity|].
  destruct (key y <=? key x); [reflexivity|].
  rewrite IH. apply perm_swap.
Qed.

Lemma stable_sort_desc_perm (l : list A) :
  Permutation (stable_sort_desc key l) l.
Proof.
  induction l as [|x l IH]; simpl; [reflexivity|].
  rewrite insert_desc_perm. apply perm_skip, IH.
Qed.

Lemma stable_sort_asc_fixed (l : list A) :
  ascending key l -> stable_sort_asc key l = l.
Proof.
  intros S. apply ascending_unique.
  - apply stable_sort_asc_ascending.
  - exact S.
  - intros k. symmetry. apply stable_sort_asc_stable.
Qed.

Lemma stable_sort_desc_fixed (l : list A) :
  descending key l -> stable_sort_desc key l = l.
Proof.
  intros S. apply descending_unique.
  - apply stable_sort_desc_descending.
  - exact S.
  - intros k. symmetry. apply stable_sort_desc_stable.
Qed.

Lemma key_class_filter (k : Z) (p : A -> bool) (l : list A) :
  key_class key k (filter p l) = filter p (key_class key k l).
Proof.
  unfold key_class. induction l as [|x l IH]; simpl; [reflexivity|].
  destruct (p x) eqn:Hp, (key x =? k) eqn:Hk; simpl;
    rewrite ?Hp, ?Hk, IH; reflexivity.
Qed.

Lemma stable_sort_desc_filter (p : A -> bool) (l : list A) :
  stable_sort_desc key (filter p l) = filter p (stable_sort_desc key l).
Proof.
  apply descending_unique.
  - apply stable_sort_desc_descending.
  - apply StronglySorted_filter, stable_sort_desc_descending.
  - intros k.
    rewrite key_class_filter, !stable_sort_desc_stable, key_class_filter.
    reflexivity.
Qed.

End Keyed.

End PySortFacts.

(** ** [get_repositories]: the shape of the returned list *)
Module ShapeFacts.
Import PySort PySortFacts GetGitRepos.

Section Shape.
Variable parse : string -> Z.

Abbreviation upd := (fun r : repo => parse (updated_at r)).
Abbreviation not_fork := (fun r : repo => negb (fork r)).

Abbreviation cut n l := (if 0 <? n then firstn (Z.to_nat n) l%list else l%list).

Lemma shape_spec_unfold (l : list repo) (n : Z) :
  shape_spec parse l n =
  stable_sort_asc size (cut n (stable_sort_desc upd (filter not_fork l))).
Proof. reflexivity. Qed.

Lemma shape_is_shape_spec (l : list repo) (n : Z) :
  shape parse l n = shape_spec parse l n.
Proof.
  unfold shape, shape_spec.
  rewrite sorted_forward, sorted_reverse. reflexivity.
Qed.

Lemma cut_descending (n : Z) (l : list repo) :
  descending upd l -> descending upd (cut n l).
Proof.
  destruct (0 <? n); [|auto].
  apply StronglySorted_firstn.
Qed.

Lemma cut_incl (n : Z) (l : list repo) (x : repo) :
  In x (cut n l) -> In x l.
Proof.
  destruct (0 <? n); [|auto].
  rewrite <- (firstn_skipn (Z.to_nat n) l) at 2.
  intros H. apply in_or_app. auto.
Qed.

Lemma cut_short (n : Z) (l l' : list repo) :
  List.length l' = List.length (cut n l) -> cut n l' = l'.
Proof.
  destruct (0 <? n); [|reflexivity].
  intros H. apply firstn_all2. rewrite H, length_firstn. lia.
Qed.

Lemma shape_spec_not_fork (l : list repo) (n : Z) (x : repo) :
  In x (shape_spec parse l n) -> fork x = false.
Proof.
  rewrite shape_spec_unfold. intros H.
  apply (Permutation_in x (stable_sort_asc_perm size _)) in H.
  apply cut_incl in H.
  apply (Permutation_in x (stable_sort_desc_perm upd _)) in H.
  apply filter_In in H. destruct H as [_ H].
  destruct (fork x); [discriminate | reflexivity].
Qed.

Lemma shape_spec_fixed (l : list repo) (n : Z) :
  shape_spec parse (shape_spec parse l n) n = shape_spec parse l n.
Proof.
  set (o := shape_spec parse l n).
  rewrite (shape_spec_unfold o).
  assert (Hf : filter not_fork o = o).
  { apply forallb_filter_id, forallb_forall. intros x Hx.
    apply shape_spec_not_fork in Hx. rewrite Hx. reflexivity. }
  rewrite Hf.
  set (t := cut n (stable_sort_desc upd (filter not_fork l))).
  assert (Ho : o = stable_sort_asc size t) by reflexivity.
  assert (Ht : descending upd t)
    by (apply cut_descending, stable_sort_desc_descending).
  assert (Hlen : List.length (stable_sort_desc upd o) = List.length t).
  { rewrite (Permutation_length (stable_sort_desc_perm upd o)), Ho.
    apply Permutation_length, stable_sort_asc_perm. }
  rewrite (cut_short n _ _ Hlen).
  apply (ascending_unique size).
  - apply stable_sort_asc_ascending.
  - rewrite Ho. apply stable_sort_asc_ascending.
  - intros k. rewrite (stable_sort_asc_stable size).
    unfold key_class at 2. rewrite <- (stable_sort_desc_filter upd).
    fold (key_class size k o).
    rewrite Ho, (stable_sort_asc_stable size).
    symmetry. apply (stable_sort_desc_fixed upd).
    apply StronglySorted_filter, Ht.
Qed.

(** C1. For every list of records and every [nrepos], the list
    [get_repositories] builds from the gathered pages is exactly the
    spec's four steps: forks removed, stable sort descending by
    [updated_at], truncation to the first [nrepos] entries when
    [nrepos > 0], stable sort ascending by [size].  For 10 records none
    of which is a fork and [nrepos = 3], the output has 3 records, in
    ascending order of size, and the 7 records left out are each updated
    no later than each record kept. *)
Theorem shape_refines_spec :
  (forall (all_repos : list repo) (nrepos : Z),
     shape parse all_repos nrepos = shape_spec parse all_repos nrepos) /\
  (forall all_repos : list repo,
     List.length all_repos = 10%nat ->
     Forall (fun r => fork r = false) all_repos ->
     List.length (shape parse all_repos 3) = 3%nat /\
     ascending size (shape parse all_repos 3) /\
     exists rest : list repo,
       List.length rest = 7%nat /\
       Permutation all_repos (shape parse all_repos 3 ++ rest) /\
       forall a b, In a (shape parse all_repos 3) -> In b rest ->
                   parse (updated_at b) <= parse (updated_at a)).
Proof.
  split; [apply shape_is_shape_spec|].
  intros l Hlen Hnf.
  rewrite shape_is_shape_spec, shape_spec_unfold.
  assert (Hf : filter not_fork l = l).
  { apply forallb_filter_id, forallb_forall. intros x Hx.
    rewrite Forall_forall in Hnf. rewrite (Hnf x Hx). reflexivity. }
  rewrite Hf. change (0 <? 3) with true. change (Z.to_nat 3) with 3%nat.
  cbv iota.
  set (s := stable_sort_desc upd l).
  assert (Hs : List.length s = 10%nat)
    by (unfold s; rewrite (Permutation_length (stable_sort_desc_perm upd l)); exact Hlen).
  assert (Hp : Permutation (stable_sort_asc size (firstn 3 s)) (firstn 3 s))
    by apply stable_sort_asc_perm.
  repeat split.
  - rewrite (Permutation_length Hp), length_firstn, Hs. reflexivity.
  - apply stable_sort_asc_ascending.
  - exists (skipn 3 s). repeat split.
    + rewrite length_skipn, Hs. reflexivity.
    + rewrite Hp, firstn_skipn. symmetry. apply stable_sort_desc_perm.
    + intros a b Ha Hb.
      apply (Permutation_in a Hp) in Ha.
      pose proof (stable_sort_desc_descending upd l) as Hd.
      fold s in Hd. rewrite <- (firstn_skipn 3 s) in Hd.
      apply StronglySorted_app_inv in Hd as (_ & _ & Hd).
      apply (Hd a b Ha Hb).
Qed.

(** C9. Applying the shaping of [get_repositories] to its own output,
    with the same [nrepos], gives that output back, element for
    element. *)
Theorem shape_idempotent (all_repos : list repo) (nrepos : Z) :
  shape parse (shape parse all_repos nrepos) nrepos =
  shape parse all_repos nrepos.
Proof.
  rewrite !shape_is_shape_spec. apply shape_spec_fixed.
Qed.

End Shape.

(** The three most recently updated of the ten sample records, smallest
    first. *)
Example shape_ten_repos :
  map name (shape Samples.parse_iso Samples.ten_repos 3) =
  ["arthur"; "mordred"; "sortinghat"]%string.
Proof. vm_compute. reflexivity. Qed.

Lemma shape_refines_spec_witness :
  List.length Samples.ten_repos = 10%nat /\
  Forall (fun r => fork r = false) Samples.ten_repos /\
  List.length (shape Samples.parse_iso Samples.ten_repos 3) = 3%nat /\
  ascending size (shape Samples.parse_iso Samples.ten_repos 3) /\
  exists rest : list repo,
    List.length rest = 7%nat /\
    Permutation Samples.ten_repos
      (shape Samples.parse_iso Samples.ten_repos 3 ++ rest) /\
    forall a b, In a (shape Samples.parse_iso Samples.ten_repos 3) ->
                In b rest ->
                Samples.parse_iso (updated_at b) <= Samples.parse_iso (updated_at a).
Proof.
  assert (H1 : List.length Samples.ten_repos = 10%nat) by reflexivity.
  assert (H2 : Forall (fun r => fork r = false) Samples.ten_repos)
    by (repeat constructor).
  exact (conj H1 (conj H2
           (proj2 (shape_refines_spec Samples.parse_iso) Samples.ten_repos H1 H2))).
Defined.

End ShapeFacts.

(** ** [get_owner_repos_url] and the pagination loop *)
Module GetGitReposFacts.
Import Py GetGitRepos.
Local Open Scope py_scope.

Lemma raise_for_status_error (r : response) (w : world) :
  http_error r ->
  raise_for_status r w = (Raises (HTTPError (status_code r)), w).
Proof.
  unfold http_error, raise_for_status. intros [H1 H2].
  apply Z.leb_le in H1. apply Z.ltb_lt in H2. rewrite H1, H2. reflexivity.
Qed.

Lemma raise_for_status_fine (r : response) (w : world) :
  ~ http_error r -> raise_for_status r w = (Returns tt, w).
Proof.
  unfold http_error, raise_for_status. intros H.
  destruct (Z.leb_spec 400 (status_code r)), (Z.ltb_spec (status_code r) 600);
    simpl; try reflexivity; lia.
Qed.

(** *** The probe of the organization endpoint *)
Lemma probe_fine (owner : string) (token : option string) (w : world)
  (r : response) (rest : list outcome) :
  script w = Answer r :: rest ->
  ~ http_error r ->
  get_owner_repos_url owner token w =
  (Returns (org_url owner),
   mk_world rest (sent w ++ [get_request (org_url owner) token])
     (clock w) (utc_offset w) (slept w) (log w)).
Proof.
  intros Hs Hr. unfold get_owner_repos_url, bind, requests_get, try_except.
  rewrite Hs. rewrite raise_for_status_fine by assumption. reflexivity.
Qed.

Lemma probe_other_error (owner : string) (token : option string) (w : world)
  (r : response) (rest : list outcome) :
  script w = Answer r :: rest ->
  http_error r -> status_code r <> 403 ->
  get_owner_repos_url owner token w =
  (Returns (user_url owner),
   mk_world rest (sent w ++ [get_request (org_url owner) token])
     (clock w) (utc_offset w) (slept w) (log w)).
Proof.
  intros Hs Hr H403. unfold get_owner_repos_url, bind, requests_get, try_except.
  rewrite Hs. rewrite raise_for_status_error by assumption. simpl.
  destruct (Z.eqb_spec (status_code r) 403); [contradiction | reflexivity].
Qed.

Lemma probe_rate_limited (owner : string) (token : option string) (w : world)
  (r : response) (rest : list outcome) (v : string) (ts : Z) :
  script w = Answer r :: rest ->
  status_code r = 403 ->
  getitem (headers r) "X-RateLimit-Reset" = Returns v ->
  int v = Returns ts ->
  get_owner_repos_url owner token w =
  (Returns (org_url owner),
   let seconds_to_reset :=
     timedelta_seconds ((ts + utc_offset w) * 1000000 - clock w) + 1 in
   mk_world rest (sent w ++ [get_request (org_url owner) token])
     (clock w + seconds_to_reset * 1000000) (utc_offset w)
     (slept w ++ [seconds_to_reset])
     (log w ++ [Info_rate_limit_wait seconds_to_reset])).
Proof.
  intros Hs H403 Hv Hts.
  unfold get_owner_repos_url, bind, requests_get, try_except.
  rewrite Hs. rewrite raise_for_status_error by (unfold http_error; lia).
  simpl. rewrite H403. simpl. unfold lift. rewrite Hv, Hts. reflexivity.
Qed.

(** *** One turn of the loop *)
Lemma fetch_page_ok (token : option string) (url : string)
  (all_repos : list repo) (w : world) (r : response) (rest : list outcome) :
  script w = Answer r :: rest ->
  page_ok r ->
  exists v,
    fetch_page token url all_repos w =
    (Returns (all_repos ++ json r, links_next r),
     mk_world rest (sent w ++ [get_request url token])
       (clock w) (utc_offset w) (slept w)
       ((log w ++ [Debug_getting_repos url]) ++ [Debug_rate_limit v])).
Proof.
  intros Hs [Hok [v Hv]]. exists v.
  unfold fetch_page, bind, logging, try_except, requests_get. simpl.
  rewrite Hs. rewrite raise_for_status_fine by assumption.
  unfold lift. rewrite Hv. reflexivity.
Qed.

Lemma fetch_page_http_error (token : option string) (url : string)
  (all_repos : list repo) (w : world) (r : response) (rest : list outcome) :
  script w = Answer r :: rest ->
  http_error r ->
  fetch_page token url all_repos w =
  (Raises (HTTPError (status_code r)),
   mk_world rest (sent w ++ [get_request url token])
     (clock w) (utc_offset w) (slept w) (log w ++ [Debug_getting_repos url])).
Proof.
  intros Hs Hr.
  unfold fetch_page, bind, logging, try_except, requests_get. simpl.
  rewrite Hs. rewrite raise_for_status_error by assumption. reflexivity.
Qed.

Lemma fetch_page_no_answer (token : option string) (url : string)
  (all_repos : list repo) (w : world) (e : net_error) (rest : list outcome) :
  script w = NoAnswer e :: rest ->
  fetch_page token url all_repos w =
  if is_ConnectionError (exn_of e)
  then (Returns (all_repos, None),
        mk_world rest (sent w ++ [get_request url token])
          (clock w) (utc_offset w) (slept w)
          ((log w ++ [Debug_getting_repos url]) ++ [Error_can_not_connect]))
  else (Raises (exn_of e),
        mk_world rest (sent w ++ [get_request url token])
          (clock w) (utc_offset w) (slept w)
          (log w ++ [Debug_getting_repos url])).
Proof.
  intros Hs.
  unfold fetch_page, bind, logging, try_except, requests_get. simpl.
  rewrite Hs. destruct e; reflexivity.
Qed.

(** *** The fuel of the loop is enough

    A turn that finds the script empty is pending and leaves it empty;
    any other turn takes exactly one answer off the script.  So with
    more fuel than the script is long, the loop can only be pending
    because the script has run out. *)
Lemma getitem_cases {V : Type} (d : list (string * V)) (k : string) :
  (exists v, getitem d k = Returns v) \/ getitem d k = Raises (KeyError k).
Proof.
  induction d as [|[k' v] d IH]; simpl; [auto|].
  destruct (String.eqb k k'); eauto.
Qed.

Lemma fetch_page_script (token : option string) (url : string)
  (all_repos : list repo) (w : world) :
  match script w with
  | [] =>
      fst (fetch_page token url all_repos w) = Pending /\
      script (snd (fetch_page token url all_repos w)) = []
  | _ :: rest =>
      fst (fetch_page token url all_repos w) <> Pending /\
      script (snd (fetch_page token url all_repos w)) = rest
  end.
Proof.
  unfold fetch_page, bind, logging, try_except, requests_get, raise_for_status,
    lift, ret, raise.
  cbn [script].
  destruct (script w) as [|[r|e] rest]; [split; reflexivity | |].
  - destruct ((400 <=? status_code r) && (status_code r <? 600)); cbn.
    + split; [discriminate | reflexivity].
    + destruct (getitem_cases (headers r) "X-RateLimit-Remaining")
        as [[v ->] | ->]; cbn; split; try discriminate; reflexivity.
  - destruct e; cbn; split; try discriminate; reflexivity.
Qed.

Lemma fetch_pages_pending (fuel : nat) :
  forall (token : option string) (url : string) (all_repos : list repo)
         (w w' : world),
    (List.length (script w) < fuel)%nat ->
    fetch_pages fuel token url all_repos w = (Pending, w') ->
    script w' = [].
Proof.
  induction fuel as [|fuel IH]; intros token url acc w w' Hlen Hrun; [lia|].
  cbn [fetch_pages] in Hrun. unfold bind in Hrun.
  pose proof (fetch_page_script token url acc w) as Hpage.
  destruct (fetch_page token url acc w) as [res w1]. cbn [fst snd] in Hpage.
  destruct (script w) as [|o rest] eqn:Hs; destruct Hpage as [Hres Hscr].
  - subst res. inversion Hrun; subst. exact Hscr.
  - destruct res as [[acc' [next_url|]]| |]; try discriminate; [|contradiction].
    apply (IH token next_url acc' w1 w'); [|exact Hrun].
    rewrite Hscr. simpl in Hlen. lia.
Qed.

(** *** The loop over a run of good pages *)
Lemma fetch_pages_walk (token : option string) (pages : list response) :
  forall (fuel : nat) (url : string) (all_repos : list repo) (w : world)
         (tail : list outcome),
    Forall page_ok pages -> Forall has_next pages ->
    script w = map Answer pages ++ tail ->
    (List.length pages < fuel)%nat ->
    exists url' w1,
      fetch_pages fuel token url all_repos w =
      fetch_pages (fuel - List.length pages) token url'
        (all_repos ++ List.concat (map json pages)) w1 /\
      script w1 = tail /\
      List.length (sent w1) = (List.length (sent w) + List.length pages)%nat /\
      (~ In Error_can_not_connect (log w) ->
       ~ In Error_can_not_connect (log w1)).
Proof.
  induction pages as [|r ps IH]; intros fuel url acc w tail Hok Hnext Hs Hfuel.
  - exists url, w. simpl. rewrite app_nil_r, Nat.sub_0_r, Nat.add_0_r. auto.
  - destruct fuel as [|fuel]; [simpl in Hfuel; lia|].
    inversion Hok as [|? ? Hr Hps]; subst.
    inversion Hnext as [|? ? Hn Hnps]; subst.
    simpl in Hs.
    destruct (fetch_page_ok token url acc w r _ Hs Hr) as [v Hpage].
    unfold has_next in Hn.
    destruct (links_next r) as [next_url|] eqn:Hlink; [|contradiction].
    cbn [fetch_pages]. unfold bind at 1. rewrite Hpage.
    assert (Hlt : (List.length ps < fuel)%nat) by (simpl in Hfuel; lia).
    match type of Hpage with
    | _ = (_, ?w') =>
        destruct (IH fuel next_url (acc ++ json r) w' tail Hps Hnps eq_refl Hlt)
          as (url' & w1 & Hrun & Hscr & Hsent & Hlog)
    end.
    exists url', w1. rewrite Hrun. simpl in Hsent. rewrite length_app in Hsent.
    simpl in Hsent. simpl.
    rewrite <- app_assoc. repeat split; [assumption | lia |].
    intros Hno. apply Hlog. simpl. rewrite !in_app_iff. simpl.
    intros [[H|[H|[]]]|[H|[]]]; [contradiction | discriminate | discriminate].
Qed.

Lemma logging_each_run (l : list log_entry) (w : world) :
  logging_each l w =
  (Returns tt,
   mk_world (script w) (sent w) (clock w) (utc_offset w) (slept w) (log w ++ l)).
Proof.
  revert w. induction l as [|e l IH]; intros w; simpl.
  - rewrite app_nil_r. destruct w; reflexivity.
  - unfold bind, logging. rewrite IH. simpl. rewrite <- app_assoc. reflexivity.
Qed.

(** What [get_repositories] does once the loop has given [all_repos]. *)
Lemma get_repositories_after_loop (parse : string -> Z) (owner : string)
  (token : option string) (nrepos : Z) (w w1 w2 : world) (url : string)
  (all_repos : list repo) :
  get_owner_repos_url owner token w = (Returns url, w1) ->
  fetch_pages (S (List.length (script w1))) token url [] w1 =
    (Returns all_repos, w2) ->
  get_repositories parse owner token nrepos w =
  (Returns (shape parse all_repos nrepos),
   mk_world (script w2) (sent w2) (clock w2) (utc_offset w2) (slept w2)
     (log w2 ++
      map (fun repo => Debug_repo (updated_at repo) (size repo) (name repo))
        (shape parse all_repos nrepos))).
Proof.
  intros Hurl Hloop. unfold get_repositories.
  unfold bind at 1. rewrite Hurl.
  unfold bind at 1. rewrite Hloop.
  unfold bind. rewrite logging_each_run. reflexivity.
Qed.

Lemma get_repositories_loop_raises (parse : string -> Z) (owner : string)
  (token : option string) (nrepos : Z) (w w1 w2 : world) (url : string)
  (e : exn) :
  get_owner_repos_url owner token w = (Returns url, w1) ->
  fetch_pages (S (List.length (script w1))) token url [] w1 = (Raises e, w2) ->
  get_repositories parse owner token nrepos w = (Raises e, w2).
Proof.
  intros Hurl Hloop. unfold get_repositories.
  unfold bind at 1. rewrite Hurl.
  unfold bind at 1. rewrite Hloop. reflexivity.
Qed.

Lemma fetch_pages_refused (k : nat) (token : option string) (url : string)
  (all_repos : list repo) (w : world) (e : net_error) (rest : list outcome) :
  script w = NoAnswer e :: rest ->
  exn_of e = ConnectionError ->
  fetch_pages (S k) token url all_repos w =
  (Returns all_repos,
   mk_world rest (sent w ++ [get_request url token])
     (clock w) (utc_offset w) (slept w)
     ((log w ++ [Debug_getting_repos url]) ++ [Error_can_not_connect])).
Proof.
  intros Hs He. cbn [fetch_pages]. unfold bind.
  rewrite (fetch_page_no_answer _ _ _ _ _ _ Hs), He. reflexivity.
Qed.

Lemma fetch_pages_last (k : nat) (token : option string) (url : string)
  (all_repos : list repo) (w : world) (r : response) (rest : list outcome) :
  script w = Answer r :: rest ->
  page_ok r -> links_next r = None ->
  exists v,
    fetch_pages (S k) token url all_repos w =
    (Returns (all_repos ++ json r),
     mk_world rest (sent w ++ [get_request url token])
       (clock w) (utc_offset w) (slept w)
       ((log w ++ [Debug_getting_repos url]) ++ [Debug_rate_limit v])).
Proof.
  intros Hs Hok Hlast.
  destruct (fetch_page_ok token url all_repos w r rest Hs Hok) as [v Hpage].
  exists v. cbn [fetch_pages]. unfold bind. rewrite Hpage, Hlast. reflexivity.
Qed.

(** C6. Once the start URL is chosen: if the pages [pages] arrive, each
    with a [next] link, and the following request meets a
    [ConnectionError], then [get_repositories] still returns, and what
    it returns is the shaped list of all the items of [pages]; the error
    is logged and no further request is sent.  If instead a page [last]
    without [next] link follows, the loop stops right there, and the
    result is the shaped concatenation, in order, of all the pages. *)
Theorem pagination_keeps_partial_results (parse : string -> Z)
  (owner : string) (token : option string) (nrepos : Z) (w w1 : world)
  (url : string) (pages : list response) :
  get_owner_repos_url owner token w = (Returns url, w1) ->
  Forall page_ok pages ->
  Forall has_next pages ->
  (forall (e : net_error) (rest : list outcome),
     script w1 = map Answer pages ++ NoAnswer e :: rest ->
     exn_of e = ConnectionError ->
     exists w',
       get_repositories parse owner token nrepos w =
       (Returns (shape parse (List.concat (map json pages)) nrepos), w') /\
       In Error_can_not_connect (log w') /\
       script w' = rest /\
       List.length (sent w') = (List.length (sent w1) + List.length pages + 1)%nat)
  /\
  (forall (last : response) (rest : list outcome),
     script w1 = map Answer (pages ++ [last]) ++ rest ->
     page_ok last -> links_next last = None ->
     exists w',
       get_repositories parse owner token nrepos w =
       (Returns (shape parse (List.concat (map json (pages ++ [last]))) nrepos), w') /\
       (~ In Error_can_not_connect (log w1) ->
        ~ In Error_can_not_connect (log w')) /\
       script w' = rest /\
       List.length (sent w') = (List.length (sent w1) + List.length pages + 1)%nat).
Proof.
  intros Hurl Hok Hnext. split.
  - intros e rest Hs He.
    assert (Hfuel : (List.length pages < S (List.length (script w1)))%nat).
    { rewrite Hs, length_app, length_map. lia. }
    destruct (fetch_pages_walk token pages _ url [] w1 _ Hok Hnext Hs Hfuel)
      as (url' & w2 & Hrun & Hscr & Hsent & _).
    destruct (S (List.length (script w1)) - List.length pages)%nat as [|k] eqn:Hk;
      [lia|].
    rewrite (fetch_pages_refused k token url' _ w2 e rest Hscr He) in Hrun.
    eexists. split; [exact (get_repositories_after_loop parse _ _ _ _ _ _ _ _ Hurl Hrun)|].
    simpl. repeat split.
    + rewrite !in_app_iff. left. right. simpl. auto.
    + rewrite length_app. simpl. lia.
  - intros last rest Hs Hlast Hnone.
    rewrite map_app, <- app_assoc in Hs. simpl in Hs.
    assert (Hfuel : (List.length pages < S (List.length (script w1)))%nat).
    { rewrite Hs, length_app, length_map. lia. }
    destruct (fetch_pages_walk token pages _ url [] w1 _ Hok Hnext Hs Hfuel)
      as (url' & w2 & Hrun & Hscr & Hsent & Hlog).
    destruct (S (List.length (script w1)) - List.length pages)%nat as [|k] eqn:Hk;
      [lia|].
    destruct (fetch_pages_last k token url' ([] ++ List.concat (map json pages))
                w2 last rest Hscr Hlast Hnone) as [v Hstop].
    rewrite Hstop in Hrun. rewrite app_nil_l in Hrun.
    replace (List.concat (map json pages) ++ json last)
      with (List.concat (map json (pages ++ [last]))) in Hrun
      by (rewrite map_app, concat_app; simpl; rewrite app_nil_r; reflexivity).
    eexists. split; [exact (get_repositories_after_loop parse _ _ _ _ _ _ _ _ Hurl Hrun)|].
    simpl. repeat split.
    + intros Hno. specialize (Hlog Hno). rewrite !in_app_iff. simpl.
      intros [[[H|[H|[]]]|[H|[]]]|H]; try contradiction; try discriminate.
      apply in_map_iff in H. destruct H as (x & Hx & _). discriminate.
    + rewrite length_app. simpl. lia.
Qed.

Lemma shape_nil (parse : string -> Z) (nrepos : Z) :
  shape parse [] nrepos = [].
Proof.
  unfold shape. simpl. destruct (0 <? nrepos); [rewrite firstn_nil|]; reflexivity.
Qed.

(** C7. When the probe of the organization endpoint is answered without
    HTTP error, the organization endpoint is the one used.  When it is
    answered with an HTTP error other than 403, the user endpoint is
    used instead; and if the first request to the user endpoint fails as
    well, [get_repositories] stops there: that request is the only one
    ever sent to the user endpoint. *)
Theorem org_error_retries_user_once (parse : string -> Z) (owner : string)
  (token : option string) (nrepos : Z) (w : world) (r : response)
  (rest : list outcome) :
  script w = Answer r :: rest ->
  (~ http_error r ->
   get_owner_repos_url owner token w =
   (Returns (org_url owner),
    mk_world rest (sent w ++ [get_request (org_url owner) token])
      (clock w) (utc_offset w) (slept w) (log w)))
  /\
  (http_error r -> status_code r <> 403 ->
   get_owner_repos_url owner token w =
   (Returns (user_url owner),
    mk_world rest (sent w ++ [get_request (org_url owner) token])
      (clock w) (utc_offset w) (slept w) (log w))
   /\
   forall (o2 : outcome) (rest2 : list outcome),
     rest = o2 :: rest2 -> failed o2 ->
     exists res w',
       get_repositories parse owner token nrepos w = (res, w') /\
       res = match o2 with
             | Answer r2 => Raises (HTTPError (status_code r2))
             | NoAnswer e =>
                 if is_ConnectionError (exn_of e) then Returns []
                 else Raises (exn_of e)
             end /\
       sent w' = sent w ++ [get_request (org_url owner) token;
                            get_request (user_url owner) token] /\
       script w' = rest2).
Proof.
  intros Hs. split; [intros Hr; apply (probe_fine owner token w r rest); assumption|].
  intros Hr H403.
  pose proof (probe_other_error owner token w r rest Hs Hr H403) as Hurl.
  split; [exact Hurl|].
  intros o2 rest2 -> Hfail.
  match type of Hurl with _ = (_, ?w1') => set (w1 := w1') in * end.
  assert (Hs1 : script w1 = o2 :: rest2) by reflexivity.
  destruct o2 as [r2|e].
  - pose proof (fetch_page_http_error token (user_url owner) [] w1 r2 rest2 Hs1 Hfail)
      as Hpage.
    eexists _, _. split.
    + eapply get_repositories_loop_raises; [exact Hurl|].
      cbn [fetch_pages]. unfold bind. rewrite Hpage. reflexivity.
    + simpl. rewrite <- app_assoc. auto.
  - pose proof (fetch_page_no_answer token (user_url owner) [] w1 e rest2 Hs1)
      as Hpage.
    destruct (is_ConnectionError (exn_of e)) eqn:He.
    + eexists _, _. split.
      * eapply get_repositories_after_loop; [exact Hurl|].
        cbn [fetch_pages]. unfold bind. rewrite Hpage. reflexivity.
      * rewrite shape_nil. simpl. rewrite <- app_assoc. auto.
    + eexists _, _. split.
      * eapply get_repositories_loop_raises; [exact Hurl|].
        cbn [fetch_pages]. unfold bind. rewrite Hpage. reflexivity.
      * simpl. rewrite <- app_assoc. auto.
Qed.

(** C5, amended. When the probe is answered 403 with a reset time [ts]
    in its header, the local time zone is UTC and [ts] lies no more than
    a day ahead of the clock, [get_owner_repos_url] sleeps the whole
    seconds left until [ts], plus one: it wakes after [ts] and at most
    one second after it, at [ts + 1] exactly when the clock stood on a
    whole second; a reset between 4 and 5 seconds ahead gives a wait of
    5 or 6 seconds.  When the probe is answered with any other status,
    nothing is slept. *)
Theorem rate_limit_wait (owner : string) (token : option string) (w : world)
  (r : response) (rest : list outcome) :
  script w = Answer r :: rest ->
  (status_code r <> 403 ->
   forall res w', get_owner_repos_url owner token w = (res, w') ->
                  slept w' = slept w /\ clock w' = clock w)
  /\
  (forall (v : string) (ts : Z),
     status_code r = 403 ->
     getitem (headers r) "X-RateLimit-Reset" = Returns v ->
     int v = Returns ts ->
     utc_offset w = 0 ->
     0 <= ts * 1000000 - clock w < 86400000000 ->
     exists w',
       get_owner_repos_url owner token w = (Returns (org_url owner), w') /\
       let wait := (ts * 1000000 - clock w) / 1000000 + 1 in
       slept w' = slept w ++ [wait] /\
       clock w' = clock w + wait * 1000000 /\
       ts * 1000000 < clock w' <= (ts + 1) * 1000000 /\
       (clock w mod 1000000 = 0 -> clock w' = (ts + 1) * 1000000) /\
       (4000000 < ts * 1000000 - clock w <= 5000000 -> 5 <= wait <= 6)).
Proof.
  intros Hs. split.
  - intros H403 res w' Hrun.
    assert (Hdec : http_error r \/ ~ http_error r) by (unfold http_error; lia).
    destruct Hdec as [Hr|Hr].
    + rewrite (probe_other_error owner token w r rest Hs Hr H403) in Hrun.
      inversion Hrun; subst. auto.
    + rewrite (probe_fine owner token w r rest Hs Hr) in Hrun.
      inversion Hrun; subst. auto.
  - intros v ts H403 Hv Hts Hutc Hahead.
    eexists. split; [apply (probe_rate_limited owner token w r rest v ts); assumption|].
    cbv zeta. cbn [slept clock]. rewrite Hutc, Z.add_0_r.
    unfold timedelta_seconds. rewrite (Z.mod_small _ _ Hahead).
    repeat split; try (Z.div_mod_to_equations; lia).
Qed.

(** *** The statements on the sample worlds *)
Lemma sample_pages_ok : Forall page_ok [Samples.page_1].
Proof.
  repeat constructor.
  - unfold http_error. simpl. lia.
  - exists "57"%string. reflexivity.
Qed.

Lemma sample_pages_next : Forall has_next [Samples.page_1].
Proof. repeat constructor. unfold has_next. simpl. discriminate. Qed.

Lemma pagination_keeps_partial_results_witness :
  (exists w',
     get_repositories Samples.parse_iso Samples.owner None 0 Samples.w_partial =
     (Returns (shape Samples.parse_iso (json Samples.page_1) 0), w') /\
     In Error_can_not_connect (log w') /\
     script w' = [Answer Samples.page_2] /\
     List.length (sent w') = 3%nat)
  /\
  (exists w',
     get_repositories Samples.parse_iso Samples.owner None 0 Samples.w_full =
     (Returns (shape Samples.parse_iso
                 (json Samples.page_1 ++ json Samples.page_2) 0), w') /\
     (~ In Error_can_not_connect [] -> ~ In Error_can_not_connect (log w')) /\
     script w' = [Answer Samples.page_2] /\
     List.length (sent w') = 3%nat).
Proof.
  split.
  - destruct (pagination_keeps_partial_results Samples.parse_iso Samples.owner
                None 0 Samples.w_partial _ _ [Samples.page_1] eq_refl
                sample_pages_ok sample_pages_next) as [H _].
    exact (H ConnectionRefused [Answer Samples.page_2] eq_refl eq_refl).
  - destruct (pagination_keeps_partial_results Samples.parse_iso Samples.owner
                None 0 Samples.w_full _ _ [Samples.page_1] eq_refl
                sample_pages_ok sample_pages_next) as [_ H].
    refine (H Samples.page_2 [Answer Samples.page_2] eq_refl _ eq_refl).
    split; [unfold http_error; simpl; lia | exists "57"%string; reflexivity].
Defined.

Lemma org_error_retries_user_once_witness :
  exists res w',
    get_repositories Samples.parse_iso Samples.owner None 0
      Samples.w_unknown_owner = (res, w') /\
    res = Raises (HTTPError 404) /\
    sent w' = [get_request (org_url Samples.owner) None;
               get_request (user_url Samples.owner) None] /\
    script w' = [Answer Samples.page_2].
Proof.
  assert (Herr : http_error Samples.not_found)
    by (unfold http_error; simpl; lia).
  assert (H403 : status_code Samples.not_found <> 403) by (simpl; lia).
  destruct (org_error_retries_user_once Samples.parse_iso Samples.owner None 0
              Samples.w_unknown_owner Samples.not_found
              [Answer Samples.not_found; Answer Samples.page_2] eq_refl)
    as [_ H].
  destruct (H Herr H403) as [_ H2].
  exact (H2 (Answer Samples.not_found) [Answer Samples.page_2] eq_refl Herr).
Defined.

Lemma rate_limit_wait_witness :
  (forall res w',
     get_owner_repos_url Samples.owner None Samples.w_unknown_owner = (res, w') ->
     slept w' = [] /\ clock w' = 1478185200000000)
  /\
  (exists w',
     get_owner_repos_url Samples.owner None Samples.w_limited_whole =
     (Returns (org_url Samples.owner), w') /\
     slept w' = [6] /\
     clock w' = 1478185206000000).
Proof.
  split.
  - destruct (rate_limit_wait Samples.owner None Samples.w_unknown_owner
                Samples.not_found
                [Answer Samples.not_found; Answer Samples.page_2] eq_refl)
      as [H _].
    apply H. simpl. lia.
  - destruct (rate_limit_wait Samples.owner None Samples.w_limited_whole
                Samples.rate_limited [] eq_refl) as [_ H].
    destruct (H "1478185205"%string 1478185205 eq_refl eq_refl eq_refl eq_refl)
      as (w' & Hrun & Hslept & Hclock & _).
    + simpl. lia.
    + exists w'. split; [exact Hrun|]. split; [exact Hslept | exact Hclock].
Defined.

(** C5 as the spec has it fails when the clock does not stand on a whole
    second: with the reset 4.5 seconds ahead, the code sleeps 5 seconds
    and wakes half a second after the reset, not a full second after
    it. *)
Lemma rate_limit_wake_not_reset_plus_one :
  exists w',
    get_owner_repos_url Samples.owner None Samples.w_limited =
    (Returns (org_url Samples.owner), w') /\
    slept w' = [5] /\
    clock w' = 1478185205500000 /\
    clock w' <> (1478185205 + 1) * 1000000.
Proof.
  eexists. split; [vm_compute; reflexivity|].
  simpl. repeat split. lia.
Qed.

(** What the amended C5 leaves open, on the samples: the local time zone
    enters the wait, a reset already past is waited for almost a day,
    and a 403 is slept on whether or not calls are left. *)
Example wait_with_local_time_ahead :
  slept (snd (get_owner_repos_url Samples.owner None Samples.w_limited_cet))
  = [3606].
Proof. vm_compute. reflexivity. Qed.

Example wait_with_reset_past :
  slept (snd (get_owner_repos_url Samples.owner None Samples.w_limited_late))
  = [86391].
Proof. vm_compute. reflexivity. Qed.

Example wait_with_calls_left :
  slept (snd (get_owner_repos_url Samples.owner None Samples.w_forbidden))
  = [6].
Proof. vm_compute. reflexivity. Qed.

End GetGitReposFacts.

(** ** [Backend.__init__] and [Backend._items_state_to_es] *)
Module PercevalBackendFacts.
Import Py PercevalBackend.
Local Open Scope string_scope.
Local Open Scope list_scope.

(** Case analysis on everything a run of [__init__] depends on: which
    methods the class overrides, whether the storage directory exists
    and whether it can be created. *)
Ltac run_init H :=
  cbv -[join existsb String.eqb] in H;
  try discriminate H;
  repeat match type of H with
    | context [existsb ?f ?d] =>
        destruct (existsb f d);
        cbv -[join existsb String.eqb] in H; try discriminate H
    | context [if ?b then _ else _] =>
        is_var b; destruct b;
        cbv -[join existsb String.eqb] in H; try discriminate H
    end.

Ltac init_cases cls w H :=
  intros H;
  destruct cls as [[id|] [nm|] [fid|]];
  destruct w as [hm ds wr ci ep er lg];
  run_init H.

Lemma init_returns (cls : methods) (use_cache_arg incremental_arg : bool)
  (w : world) :
  implemented cls -> writable w = true ->
  exists self w', __init__ cls use_cache_arg incremental_arg w = (Returns self, w').
Proof.
  intros (H1 & H2 & H3) Hw.
  destruct cls as [[id|] [nm|] [fid|]]; simpl in H1, H2, H3; try congruence.
  destruct w as [hm ds wr ci ep er lg]. simpl in Hw. subst wr.
  cbv -[join existsb String.eqb].
  match goal with
  | |- context [existsb ?f ?d] => destruct (existsb f d)
  end; destruct use_cache_arg, incremental_arg; eauto.
Qed.

(** C2. A Backend constructed with [use_cache = True] has
    [incremental = False], whatever [incremental] was asked for. *)
Theorem cache_disables_incremental (cls : methods) (incremental_arg : bool)
  (w w' : world) (self : Backend) :
  __init__ cls true incremental_arg w = (Returns self, w') ->
  use_cache self = true /\ incremental self = false.
Proof.
  init_cases cls w H; inversion H; subst; auto.
Qed.

Lemma cache_disables_incremental_witness :
  exists self w',
    __init__ Samples.git_class true true Samples.w_backend = (Returns self, w') /\
    use_cache self = true /\ incremental self = false.
Proof.
  eexists _, _. split; [vm_compute; reflexivity|].
  eapply (cache_disables_incremental Samples.git_class true Samples.w_backend).
  vm_compute. reflexivity.
Defined.

(** C10. Whatever [use_cache] and [incremental] are asked for, a Backend
    that [__init__] has constructed has [incremental = False]. *)
Theorem init_never_incremental (cls : methods)
  (use_cache_arg incremental_arg : bool) (w w' : world) (self : Backend) :
  __init__ cls use_cache_arg incremental_arg w = (Returns self, w') ->
  incremental self = false.
Proof.
  init_cases cls w H; inversion H; subst; auto.
Qed.

Lemma init_never_incremental_witness :
  exists self w',
    __init__ Samples.git_class false true Samples.w_backend = (Returns self, w') /\
    incremental self = false.
Proof.
  eexists _, _. split; [vm_compute; reflexivity|].
  eapply (init_never_incremental Samples.git_class false true Samples.w_backend).
  vm_compute. reflexivity.
Defined.

(** C3, amended. A Backend constructed with [use_cache = False] ends
    with [use_cache = False] and [incremental = False].  When
    [incremental = False] was asked for, the cache has been cleaned.
    When [incremental = True] was asked for, the state restore has
    logged that it is not implemented, and the cache is as it was. *)
Theorem cache_cleaned_when_not_incremental (cls : methods)
  (incremental_arg : bool) (w w' : world) (self : Backend) :
  __init__ cls false incremental_arg w = (Returns self, w') ->
  ends_fresh self /\
  (incremental_arg = false -> cache_items w' = []) /\
  (incremental_arg = true ->
   cache_items w' = cache_items w /\
   In Info_restore_not_implemented (log w')).
Proof.
  unfold ends_fresh.
  init_cases cls w H; inversion H; subst; simpl;
    (split; [split; reflexivity|]);
    (split; intros Hi; try discriminate Hi; try reflexivity);
    (split; [reflexivity | apply in_or_app; right; simpl; auto]).
Qed.

Lemma cache_cleaned_when_not_incremental_witness :
  exists self w',
    __init__ Samples.git_class false false Samples.w_backend = (Returns self, w') /\
    ends_fresh self /\ cache_items w' = [].
Proof.
  eexists _, _. split; [vm_compute; reflexivity|].
  destruct (cache_cleaned_when_not_incremental Samples.git_class false
              Samples.w_backend _ _ eq_refl) as (Hf & Hc & _).
  split; [exact Hf | exact (Hc eq_refl)].
Defined.

(** C3 as the spec has it fails: asked for [incremental = True] without
    cache, the construction ends in the FRESH state, and the item that
    was in the cache is still there. *)
Lemma fresh_after_restore_keeps_cache :
  exists self w',
    __init__ Samples.git_class false true Samples.w_backend = (Returns self, w') /\
    ends_fresh self /\
    cache_items w' = [Samples.cached_item] /\
    cache_items w' <> [].
Proof.
  eexists _, _. split; [vm_compute; reflexivity|].
  unfold ends_fresh. simpl. repeat split. discriminate.
Qed.

(** C4. Given no item, [_items_state_to_es] returns at once and leaves
    the world, and so whatever state was written before, as it was: no
    bulk write is submitted.  A run that does submit a bulk write was
    given at least one item; and a run on at least one item that
    returns has submitted exactly one bulk write. *)
Theorem empty_state_batch_not_submitted (cls : methods)
  (json_dumps : item -> string) (self : Backend) (w : world) :
  _items_state_to_es cls json_dumps self [] w = (Returns tt, w) /\
  (forall json_items res w',
     _items_state_to_es cls json_dumps self json_items w = (res, w') ->
     es_puts w' <> es_puts w -> json_items <> []) /\
  (forall json_items w',
     json_items <> [] ->
     _items_state_to_es cls json_dumps self json_items w = (Returns tt, w') ->
     exists url bulk_json, es_puts w' = es_puts w ++ [(url, bulk_json)]).
Proof.
  split; [reflexivity|]. split.
  - intros [|it rest] res w' Hrun Hput; [|discriminate].
    inversion Hrun; subst. contradiction.
  - intros [|it rest] w' Hne Hrun; [contradiction|].
    unfold _items_state_to_es, abstract, lift, of_option, bind, logging,
      requests_put in Hrun.
    destruct (_get_field_unique_id cls); [|discriminate].
    destruct (elastic self); [|discriminate].
    destruct (_get_name cls); [|discriminate].
    destruct (bulk_lines _ _ _ _); try discriminate.
    cbn [es_reachable es_puts] in Hrun.
    destruct (es_reachable w); [|discriminate].
    inversion Hrun; subst. simpl. eauto.
Qed.

Lemma empty_state_batch_not_submitted_witness :
  exists w',
    _items_state_to_es Samples.git_class Samples.dumps Samples.a_backend
      [Samples.cached_item] Samples.w_backend = (Returns tt, w') /\
    exists url bulk_json, es_puts w' = [] ++ [(url, bulk_json)].
Proof.
  destruct (empty_state_batch_not_submitted Samples.git_class Samples.dumps
              Samples.a_backend Samples.w_backend) as (_ & _ & H).
  eexists. split; [vm_compute; reflexivity|].
  apply (H [Samples.cached_item]); [discriminate | vm_compute; reflexivity].
Defined.

End PercevalBackendFacts.

(** ** [get_repository_filter] *)
Module ElkUtilsFacts.
Import Py ElkUtils.
Local Open Scope string_scope.
Local Open Scope list_scope.

(** C8. Provided [json.loads] reads the two term texts with an empty
    value, [get_repository_filter] returns the empty filter whenever the
    value it selects is the empty string, for every backend object,
    every source name, and in the plain form as in the term form. *)
Theorem empty_value_matches_all (json_loads : string -> option pyobj)
  (backend : perceval_backend_obj) (perceval_backend_name : string)
  (term : bool) :
  json_loads (term_text "origin" "") <> None ->
  json_loads (term_text "tag" "") <> None ->
  selected_value backend perceval_backend_name = "" ->
  get_repository_filter json_loads (Some backend) perceval_backend_name term =
  Returns (PDict []).
Proof.
  intros Horigin Htag. unfold selected_value, get_repository_filter.
  destruct (existsb _ _); intros ->; destruct term; simpl.
  - destruct (json_loads (term_text "tag" "")); [reflexivity | contradiction].
  - reflexivity.
  - destruct (json_loads (term_text "origin" "")); [reflexivity | contradiction].
  - reflexivity.
Qed.

Lemma empty_value_matches_all_witness :
  Samples.loads (term_text "origin" "") <> None /\
  Samples.loads (term_text "tag" "") <> None /\
  selected_value Samples.multi_origin "jira" = "" /\
  get_repository_filter Samples.loads (Some Samples.multi_origin) "jira" true =
  Returns (PDict []).
Proof.
  assert (H1 : Samples.loads (term_text "origin" "") <> None)
    by (vm_compute; discriminate).
  assert (H2 : Samples.loads (term_text "tag" "") <> None)
    by (vm_compute; discriminate).
  assert (H3 : selected_value Samples.multi_origin "jira" = "") by reflexivity.
  exact (conj H1 (conj H2 (conj H3
           (empty_value_matches_all Samples.loads Samples.multi_origin "jira"
              true H1 H2 H3)))).
Defined.

(** Without a backend object the function returns the empty filter as
    well. *)
Lemma no_backend_matches_all (json_loads : string -> option pyobj)
  (perceval_backend_name : string) (term : bool) :
  get_repository_filter json_loads None perceval_backend_name term =
  Returns (PDict []).
Proof. reflexivity. Qed.

End ElkUtilsFacts.

(** ** More on [get_git_repos.py]: what a run sends, sleeps and returns *)
Module GetGitReposRuns.
Import Py GetGitRepos GetGitReposFacts.
Local Open Scope string_scope.
Local Open Scope list_scope.
Local Open Scope Z_scope.
Local Open Scope py_scope.

Lemma timedelta_seconds_range (us : Z) : 0 <= timedelta_seconds us < 86400.
Proof. unfold timedelta_seconds. Z.div_mod_to_equations. lia. Qed.

(** Every way [get_owner_repos_url] can go, on a script that has an
    answer left. *)
Lemma probe_cases (owner : string) (token : option string) (w : world)
  (o : outcome) (rest : list outcome) :
  script w = o :: rest ->
  let w1 := mk_world rest (sent w ++ [get_request (org_url owner) token])
              (clock w) (utc_offset w) (slept w) (log w) in
  (exists e, get_owner_repos_url owner token w = (Raises e, w1)) \/
  (exists url, get_owner_repos_url owner token w = (Returns url, w1) /\
               (url = org_url owner \/ url = user_url owner)) \/
  (exists r s, o = Answer r /\ status_code r = 403 /\ 1 <= s <= 86400 /\
     get_owner_repos_url owner token w =
     (Returns (org_url owner),
      mk_world rest (sent w ++ [get_request (org_url owner) token])
        (clock w + s * 1000000) (utc_offset w) (slept w ++ [s])
        (log w ++ [Info_rate_limit_wait s]))).
Proof.
  intros Hs w1. subst w1. destruct o as [r|e].
  - assert (Hdec : http_error r \/ ~ http_error r) by (unfold http_error; lia).
    destruct Hdec as [Herr|Hfine].
    + destruct (Z.eq_dec (status_code r) 403) as [H403|H403].
      * destruct (getitem_cases (headers r) "X-RateLimit-Reset") as [[v Hv]|Hv].
        -- destruct (int v) as [ts| e |] eqn:Hts.
           ++ right. right.
              exists r, (timedelta_seconds ((ts + utc_offset w) * 1000000 - clock w) + 1).
              pose proof (timedelta_seconds_range
                            ((ts + utc_offset w) * 1000000 - clock w)).
              repeat split; try lia.
              apply (probe_rate_limited owner token w r rest v ts); assumption.
           ++ left. exists e.
              unfold get_owner_repos_url, bind, requests_get, try_except.
              rewrite Hs, raise_for_status_error by assumption.
              simpl. rewrite H403. simpl. unfold lift. rewrite Hv, Hts. reflexivity.
           ++ exfalso. unfold int, of_option in Hts.
              repeat match type of Hts with
                     | context [match ?x with _ => _ end] => destruct x
                     end; discriminate.
        -- left. exists (KeyError "X-RateLimit-Reset").
           unfold get_owner_repos_url, bind, requests_get, try_except.
           rewrite Hs, raise_for_status_error by assumption.
           simpl. rewrite H403. simpl. unfold lift. rewrite Hv. reflexivity.
      * right. left. exists (user_url owner). split; [|auto].
        apply (probe_other_error owner token w r rest); assumption.
    + right. left. exists (org_url owner). split; [|auto].
      apply (probe_fine owner token w r rest); assumption.
  - left. exists (exn_of e).
    unfold get_owner_repos_url, bind, requests_get. rewrite Hs. reflexivity.
Qed.

Lemma probe_pending (owner : string) (token : option string) (w : world) :
  script w = [] -> get_owner_repos_url owner token w = (Pending, w).
Proof.
  intros Hs. unfold get_owner_repos_url, bind, requests_get. rewrite Hs.
  reflexivity.
Qed.

(** Every way one turn of the loop can go. *)
Lemma fetch_page_pending (token : option string) (url : string)
  (all_repos : list repo) (w : world) :
  script w = [] ->
  fetch_page token url all_repos w =
  (Pending,
   mk_world [] (sent w) (clock w) (utc_offset w) (slept w)
     (log w ++ [Debug_getting_repos url])).
Proof.
  intros Hs. unfold fetch_page, bind, logging, try_except, requests_get.
  cbn [script]. rewrite Hs. reflexivity.
Qed.

Lemma fetch_page_cases (token : option string) (url : string)
  (all_repos : list repo) (w : world) (o : outcome) (rest : list outcome) :
  script w = o :: rest ->
  exists res lg,
    fetch_page token url all_repos w =
    (res, mk_world rest (sent w ++ [get_request url token])
            (clock w) (utc_offset w) (slept w) lg) /\
    res <> Pending /\
    forall acc' nxt,
      res = Returns (acc', nxt) ->
      (acc' = all_repos /\ nxt = None /\ exists e, o = NoAnswer e) \/
      (exists r, o = Answer r /\ page_ok r /\
                 acc' = all_repos ++ json r /\ nxt = links_next r).
Proof.
  intros Hs. destruct o as [r|e].
  - assert (Hdec : http_error r \/ ~ http_error r) by (unfold http_error; lia).
    destruct Hdec as [Herr|Hfine].
    + eexists _, _. split; [apply fetch_page_http_error; eassumption|].
      split; [discriminate|]. intros acc' nxt H. discriminate.
    + destruct (getitem_cases (headers r) "X-RateLimit-Remaining") as [[v Hv]|Hv].
      * assert (Hok : page_ok r) by (split; [assumption | exists v; exact Hv]).
        destruct (fetch_page_ok token url all_repos w r rest Hs Hok) as [v' Hrun].
        eexists _, _. split; [exact Hrun|]. split; [discriminate|].
        intros acc' nxt H. inversion H; subst. right. exists r. auto.
      * eexists (Raises (KeyError "X-RateLimit-Remaining")), _. split.
        -- unfold fetch_page, bind, logging, try_except, requests_get.
           cbn [script]. rewrite Hs.
           rewrite raise_for_status_fine by assumption.
           unfold lift. rewrite Hv. reflexivity.
        -- split; [discriminate|]. intros acc' nxt H. discriminate.
  - rewrite (fetch_page_no_answer token url all_repos w e rest Hs).
    destruct (is_ConnectionError (exn_of e)); eexists _, _;
      (split; [reflexivity|]); (split; [discriminate|]);
      intros acc' nxt H; inversion H; subst.
    left. eauto.
Qed.

(** What the loop leaves alone and what it uses up, whatever the network
    answers: it never sleeps, it sends one request per answer it takes
    off the script, and what it returns comes from [all_repos] or from
    the answers it took. *)
Lemma fetch_pages_frame (fuel : nat) :
  forall (token : option string) (url : string) (all_repos : list repo)
         (w : world) (res : result (list repo)) (w' : world),
    fetch_pages fuel token url all_repos w = (res, w') ->
    clock w' = clock w /\ utc_offset w' = utc_offset w /\ slept w' = slept w /\
    exists consumed urls,
      script w = consumed ++ script w' /\
      sent w' = sent w ++ map (fun u => get_request u token) urls /\
      List.length urls = List.length consumed /\
      forall acc', res = Returns acc' ->
        forall x, In x acc' ->
          In x all_repos \/ exists r, In (Answer r) consumed /\ In x (json r).
Proof.
  induction fuel as [|fuel IH]; intros token url acc w res w' Hrun.
  - inversion Hrun; subst. repeat split.
    exists [], []. simpl. rewrite app_nil_r. repeat split. discriminate.
  - cbn [fetch_pages] in Hrun. unfold bind in Hrun.
    destruct (script w) as [|o rest] eqn:Hs.
    + rewrite (fetch_page_pending token url acc w Hs) in Hrun.
      inversion Hrun; subst. cbn. repeat split.
      exists [], []. simpl. rewrite app_nil_r.
      repeat split; try assumption; try reflexivity. discriminate.
    + destruct (fetch_page_cases token url acc w o rest Hs)
        as (res1 & lg & Hpage & Hnp & Hret).
      rewrite Hpage in Hrun.
      destruct res1 as [[acc1 [next_url|]]| e |]; [| | |contradiction].
      * apply IH in Hrun. cbn [clock utc_offset slept script sent] in Hrun.
        destruct Hrun as (Hc & Hu & Hsl & consumed & urls & Hscr & Hsent & Hlen & Hin).
        repeat split; try assumption.
        exists (o :: consumed), (url :: urls). repeat split.
        -- simpl. rewrite Hscr. reflexivity.
        -- rewrite Hsent, <- app_assoc. reflexivity.
        -- simpl. rewrite Hlen. reflexivity.
        -- intros acc' Hres x Hx.
           destruct (Hin acc' Hres x Hx) as [Hacc|(r & Hr & Hj)].
           ++ destruct (Hret acc1 (Some next_url) eq_refl)
                as [(-> & Hn & _)|(r & -> & _ & -> & _)].
              ** discriminate.
              ** apply in_app_or in Hacc. destruct Hacc as [Hacc|Hj]; [auto|].
                 right. exists r. simpl. auto.
           ++ right. exists r. simpl. auto.
      * inversion Hrun; subst. cbn. repeat split.
        exists [o], [url]. repeat split.
        intros acc' Hres x Hx. inversion Hres; subst.
        destruct (Hret acc' None eq_refl)
          as [(-> & _ & _)|(r & -> & _ & -> & _)]; [auto|].
        apply in_app_or in Hx. destruct Hx as [Hx|Hj]; [auto|].
        right. exists r. simpl. auto.
      * inversion Hrun; subst. cbn. repeat split.
        exists [o], [url]. repeat split. discriminate.
Qed.

(** How [get_repositories] is put together from its three stages. *)
Lemma get_repositories_stages (parse : string -> Z) (owner : string)
  (token : option string) (nrepos : Z) (w : world)
  (res : result (list repo)) (w' : world) :
  get_repositories parse owner token nrepos w = (res, w') ->
  (exists w1, get_owner_repos_url owner token w = (Pending, w1) /\
              res = Pending /\ w' = w1) \/
  (exists e w1, get_owner_repos_url owner token w = (Raises e, w1) /\
                res = Raises e /\ w' = w1) \/
  (exists url w1,
     get_owner_repos_url owner token w = (Returns url, w1) /\
     ((fetch_pages (S (List.length (script w1))) token url [] w1 = (Pending, w') /\
       res = Pending) \/
      (exists e,
         fetch_pages (S (List.length (script w1))) token url [] w1 = (Raises e, w') /\
         res = Raises e) \/
      (exists all_repos w2,
         fetch_pages (S (List.length (script w1))) token url [] w1 =
           (Returns all_repos, w2) /\
         res = Returns (shape parse all_repos nrepos) /\
         w' = mk_world (script w2) (sent w2) (clock w2) (utc_offset w2) (slept w2)
                (log w2 ++
                 map (fun repo => Debug_repo (updated_at repo) (size repo) (name repo))
                   (shape parse all_repos nrepos))))).
Proof.
  intros Hrun.
  destruct (get_owner_repos_url owner token w) as [[url| e |] w1] eqn:Hurl.
  - right. right. exists url, w1. split; [reflexivity|].
    destruct (fetch_pages (S (List.length (script w1))) token url [] w1)
      as [[all_repos| e |] w2] eqn:Hloop.
    + right. right. exists all_repos, w2.
      rewrite (get_repositories_after_loop parse owner token nrepos w w1 w2 url
                 all_repos Hurl Hloop) in Hrun.
      inversion Hrun; subst. auto.
    + right. left. exists e.
      rewrite (get_repositories_loop_raises parse owner token nrepos w w1 w2 url
                 e Hurl Hloop) in Hrun.
      inversion Hrun; subst. auto.
    + left. unfold get_repositories in Hrun. unfold bind at 1 in Hrun.
      rewrite Hurl in Hrun. unfold bind at 1 in Hrun. rewrite Hloop in Hrun.
      inversion Hrun; subst. auto.
  - right. left. exists e, w1. unfold get_repositories, bind in Hrun.
    rewrite Hurl in Hrun. inversion Hrun; subst. auto.
  - left. exists w1. unfold get_repositories, bind in Hrun.
    rewrite Hurl in Hrun. inversion Hrun; subst. auto.
Qed.

(** *** The list [get_repositories] returns *)
Lemma shape_perm (parse : string -> Z) (l : list repo) (n : Z) :
  Permutation (shape parse l n)
    (if 0 <? n
     then firstn (Z.to_nat n)
            (PySort.stable_sort_desc (fun r => parse (updated_at r))
               (filter (fun r => negb (fork r)) l))
     else PySort.stable_sort_desc (fun r => parse (updated_at r))
            (filter (fun r => negb (fork r)) l)).
Proof.
  rewrite ShapeFacts.shape_is_shape_spec. unfold shape_spec.
  apply PySortFacts.stable_sort_asc_perm.
Qed.

Lemma shape_In (parse : string -> Z) (l : list repo) (n : Z) (x : repo) :
  In x (shape parse l n) -> In x l /\ fork x = false.
Proof.
  intros H. apply (Permutation_in x (shape_perm parse l n)) in H.
  apply ShapeFacts.cut_incl in H.
  apply (Permutation_in x (PySortFacts.stable_sort_desc_perm _ _)) in H.
  apply filter_In in H. destruct H as [Hin Hf]. split; [exact Hin|].
  destruct (fork x); [discriminate | reflexivity].
Qed.

Lemma shape_ascending (parse : string -> Z) (l : list repo) (n : Z) :
  PySort.ascending size (shape parse l n).
Proof.
  rewrite ShapeFacts.shape_is_shape_spec. unfold shape_spec.
  apply PySortFacts.stable_sort_asc_ascending.
Qed.

Lemma shape_length_eq (parse : string -> Z) (l : list repo) (n : Z) :
  List.length (shape parse l n) =
  (if 0 <? n
   then Nat.min (Z.to_nat n) (List.length (filter (fun r => negb (fork r)) l))
   else List.length (filter (fun r => negb (fork r)) l)).
Proof.
  rewrite (Permutation_length (shape_perm parse l n)).
  destruct (0 <? n).
  - rewrite length_firstn.
    rewrite (Permutation_length (PySortFacts.stable_sort_desc_perm _ _)).
    reflexivity.
  - apply Permutation_length, PySortFacts.stable_sort_desc_perm.
Qed.

(** X2. The shaped list has as many entries as there are records that
    are no forks, cut down to [nrepos] when [nrepos > 0]; with the
    default [NREPOS] it is a rearrangement of all of them. *)
Theorem shape_length (parse : string -> Z) (all_repos : list repo) (nrepos : Z) :
  List.length (shape parse all_repos nrepos) =
  (if 0 <? nrepos
   then Nat.min (Z.to_nat nrepos)
          (List.length (filter (fun r => negb (fork r)) all_repos))
   else List.length (filter (fun r => negb (fork r)) all_repos)) /\
  Permutation (shape parse all_repos NREPOS)
    (filter (fun r => negb (fork r)) all_repos).
Proof.
  split; [apply shape_length_eq|].
  rewrite (shape_perm parse all_repos NREPOS). simpl.
    apply PySortFacts.stable_sort_desc_perm.
Qed.

(** X1. Whatever the network answers, a list that [get_repositories]
    returns is in ascending order of size, holds no fork, holds only
    records that came in an answer of the run, and holds at most
    [nrepos] records when [nrepos > 0]. *)
Theorem returned_repos_are_shaped (parse : string -> Z) (owner : string)
  (token : option string) (nrepos : Z) (w w' : world) (repos : list repo) :
  get_repositories parse owner token nrepos w = (Returns repos, w') ->
  PySort.ascending size repos /\
  (forall x, In x repos ->
     fork x = false /\ exists r, In (Answer r) (script w) /\ In x (json r)) /\
  (0 < nrepos -> (List.length repos <= Z.to_nat nrepos)%nat).
Proof.
  intros Hrun.
  destruct (get_repositories_stages parse owner token nrepos w _ _ Hrun)
    as [(w1 & _ & H & _)|[(e & w1 & _ & H & _)|(url & w1 & Hurl & Hloop)]];
    try discriminate.
  destruct Hloop as [[_ H]|[(e & _ & H)|(all_repos & w2 & Hloop & Hres & _)]];
    try discriminate.
  inversion Hres; subst repos. clear Hres.
  split; [apply shape_ascending|]. split.
  - intros x Hx. apply shape_In in Hx. destruct Hx as [Hx Hf].
    split; [exact Hf|].
    destruct (fetch_pages_frame _ _ _ _ _ _ _ Hloop)
      as (_ & _ & _ & consumed & urls & Hscr & _ & _ & Hin).
    destruct (Hin all_repos eq_refl x Hx) as [[]|(r & Hr & Hj)].
    exists r. split; [|exact Hj].
    destruct (script w) as [|o rest] eqn:Hs.
    + rewrite (probe_pending owner token w Hs) in Hurl. discriminate.
    + assert (Hw1 : script w1 = rest).
      { destruct (probe_cases owner token w o rest Hs)
          as [(e & H)|[(u & H & _)|(r0 & s0 & _ & _ & _ & H)]];
          rewrite H in Hurl; inversion Hurl; reflexivity. }
      right. rewrite <- Hw1, Hscr. apply in_or_app. auto.
  - intros Hpos. rewrite shape_length_eq. apply Z.ltb_lt in Hpos. rewrite Hpos. apply Nat.le_min_l.
Qed.

Lemma returned_repos_are_shaped_witness :
  exists repos w',
    get_repositories Samples.parse_iso Samples.owner None 1 Samples.w_full =
    (Returns repos, w') /\
    PySort.ascending size repos /\
    (forall x, In x repos ->
       fork x = false /\
       exists r, In (Answer r) (script Samples.w_full) /\ In x (json r)) /\
    (0 < 1 -> (List.length repos <= Z.to_nat 1)%nat).
Proof.
  eexists _, _. split; [vm_compute; reflexivity|].
  eapply (returned_repos_are_shaped Samples.parse_iso Samples.owner None 1
            Samples.w_full).
  vm_compute. reflexivity.
Defined.

(** *** What a run sends and sleeps *)
Lemma probe_frame (owner : string) (token : option string) (w : world)
  (res : result string) (w1 : world) :
  get_owner_repos_url owner token w = (res, w1) ->
  utc_offset w1 = utc_offset w /\
  ((script w = [] /\ w1 = w) \/
   (exists o, script w = o :: script w1 /\
              sent w1 = sent w ++ [get_request (org_url owner) token])) /\
  ((slept w1 = slept w /\ clock w1 = clock w) \/
   (exists s r rest,
      script w = Answer r :: rest /\ status_code r = 403 /\
      1 <= s <= 86400 /\
      slept w1 = slept w ++ [s] /\ clock w1 = clock w + s * 1000000)).
Proof.
  intros Hrun. destruct (script w) as [|o rest] eqn:Hs.
  - rewrite (probe_pending owner token w Hs) in Hrun. inversion Hrun; subst.
    auto.
  - destruct (probe_cases owner token w o rest Hs)
      as [(e & H)|[(u & H & _)|(r & s & Ho & H403 & Hrange & H)]];
      rewrite H in Hrun; inversion Hrun; subst; cbn;
      (split; [reflexivity|]);
      (split; [right; eexists; split; reflexivity|]); auto.
    right. exists s, r, rest. auto.
Qed.

(** X3. Whatever the network answers, [get_repositories] sends exactly
    one request for every answer it takes off the network, and every
    request carries the same query parameters and the header made from
    the token. *)
Theorem requests_carry_payload_and_token (parse : string -> Z) (owner : string)
  (token : option string) (nrepos : Z) (w w' : world)
  (res : result (list repo)) :
  get_repositories parse owner token nrepos w = (res, w') ->
  exists consumed urls,
    script w = consumed ++ script w' /\
    List.length urls = List.length consumed /\
    sent w' = sent w ++ map (fun u => mk_request u get_payload (get_headers token)) urls.
Proof.
  intros Hrun.
  assert (Hprobe : forall r1 w1,
             get_owner_repos_url owner token w = (r1, w1) ->
             exists consumed urls,
               script w = consumed ++ script w1 /\
               List.length urls = List.length consumed /\
               sent w1 = sent w ++
                 map (fun u => mk_request u get_payload (get_headers token)) urls).
  { intros r1 w1 H. destruct (probe_frame owner token w r1 w1 H)
      as (_ & [[Hs ->]|(o & Hs & Hsent)] & _).
    - exists [], []. simpl. rewrite app_nil_r. auto.
    - exists [o], [org_url owner]. auto. }
  destruct (get_repositories_stages parse owner token nrepos w _ _ Hrun)
    as [(w1 & Hurl & _ & ->)|[(e & w1 & Hurl & _ & ->)|(url & w1 & Hurl & Hloop)]];
    [eapply Hprobe; eassumption | eapply Hprobe; eassumption |].
  destruct (Hprobe _ _ Hurl) as (c1 & u1 & Hs1 & Hl1 & Hsent1).
  assert (Hframe : forall r2 w2,
             fetch_pages (S (List.length (script w1))) token url [] w1 = (r2, w2) ->
             exists consumed urls,
               script w = consumed ++ script w2 /\
               List.length urls = List.length consumed /\
               sent w2 = sent w ++
                 map (fun u => mk_request u get_payload (get_headers token)) urls).
  { intros r2 w2 H.
    destruct (fetch_pages_frame _ _ _ _ _ _ _ H)
      as (_ & _ & _ & c2 & u2 & Hs2 & Hsent2 & Hl2 & _).
    exists (c1 ++ c2), (u1 ++ u2).
    rewrite Hs1, Hs2, Hsent2, Hsent1, map_app, !length_app, Hl1, Hl2, !app_assoc.
    auto. }
  destruct Hloop as [[Hloop _]|[(e & Hloop & _)|(all_repos & w2 & Hloop & _ & ->)]];
    [eapply Hframe; eassumption | eapply Hframe; eassumption |].
  destruct (Hframe _ _ Hloop) as (c & u & H1 & H2 & H3).
  exists c, u. auto.
Qed.

Lemma requests_carry_payload_and_token_witness :
  exists res w' consumed urls,
    get_repositories Samples.parse_iso Samples.owner (Some "t0ken") 0
      Samples.w_partial = (res, w') /\
    script Samples.w_partial = consumed ++ script w' /\
    List.length urls = List.length consumed /\
    sent w' = [] ++ map (fun u => mk_request u get_payload
                                    (get_headers (Some "t0ken"))) urls.
Proof.
  assert (Hrun : exists res w',
             get_repositories Samples.parse_iso Samples.owner (Some "t0ken") 0
               Samples.w_partial = (res, w'))
    by (eexists _, _; vm_compute; reflexivity).
  destruct Hrun as (res & w' & Hrun).
  destruct (requests_carry_payload_and_token Samples.parse_iso Samples.owner
              (Some "t0ken") 0 Samples.w_partial w' res Hrun)
    as (consumed & urls & H).
  exists res, w', consumed, urls. split; [exact Hrun | exact H].
Defined.

(** X4. Whatever the network answers, [get_repositories] sleeps at most
    once, only when the probe was answered 403, and then for at least 1
    and at most 86400 seconds; the pagination loop itself never
    sleeps. *)
Theorem sleeps_at_most_once (parse : string -> Z) (owner : string)
  (token : option string) (nrepos : Z) (w w' : world)
  (res : result (list repo)) :
  get_repositories parse owner token nrepos w = (res, w') ->
  (slept w' = slept w /\ clock w' = clock w) \/
  (exists s r rest,
     script w = Answer r :: rest /\ status_code r = 403 /\
     1 <= s <= 86400 /\
     slept w' = slept w ++ [s] /\ clock w' = clock w + s * 1000000).
Proof.
  intros Hrun.
  destruct (get_repositories_stages parse owner token nrepos w _ _ Hrun)
    as [(w1 & Hurl & _ & ->)|[(e & w1 & Hurl & _ & ->)|(url & w1 & Hurl & Hloop)]];
    [apply (probe_frame owner token w _ _ Hurl)
    |apply (probe_frame owner token w _ _ Hurl)|].
  destruct (probe_frame owner token w _ _ Hurl) as (_ & _ & Hsleep).
  assert (Hframe : forall r2 w2,
             fetch_pages (S (List.length (script w1))) token url [] w1 = (r2, w2) ->
             slept w2 = slept w1 /\ clock w2 = clock w1).
  { intros r2 w2 H. destruct (fetch_pages_frame _ _ _ _ _ _ _ H) as (Hc & _ & Hsl & _).
    auto. }
  assert (Hw' : slept w' = slept w1 /\ clock w' = clock w1).
  { destruct Hloop as [[Hloop _]|[(e & Hloop & _)|(all_repos & w2 & Hloop & _ & ->)]];
      [eauto | eauto | cbn [slept clock]; eauto]. }
  destruct Hw' as [-> ->]. exact Hsleep.
Qed.

Lemma sleeps_at_most_once_witness :
  exists res w',
    get_repositories Samples.parse_iso Samples.owner None 0 Samples.w_limited =
    (res, w') /\
    ((slept w' = [] /\ clock w' = 1478185200500000) \/
     (exists s r rest,
        script Samples.w_limited = Answer r :: rest /\ status_code r = 403 /\
        1 <= s <= 86400 /\
        slept w' = [] ++ [s] /\ clock w' = 1478185200500000 + s * 1000000)).
Proof.
  eexists _, _. split; [vm_compute; reflexivity|].
  eapply (sleeps_at_most_once Samples.parse_iso Samples.owner None 0
            Samples.w_limited).
  vm_compute. reflexivity.
Defined.

(** *** Failures that are not caught *)

Lemma get_repositories_probe_raises (parse : string -> Z) (owner : string)
  (token : option string) (nrepos : Z) (w w1 : world) (e : exn) :
  get_owner_repos_url owner token w = (Raises e, w1) ->
  get_repositories parse owner token nrepos w = (Raises e, w1).
Proof.
  intros H. unfold get_repositories, bind. rewrite H. reflexivity.
Qed.

(** X5. A probe of the organization endpoint that gets no answer ends
    [get_repositories] with the exception of [requests.get], also when
    that is a [ConnectionError]: only the pagination loop catches those.
    One request has been sent, nothing is logged and nothing returned. *)
Theorem probe_failure_is_not_caught (parse : string -> Z) (owner : string)
  (token : option string) (nrepos : Z) (w : world) (e : net_error)
  (rest : list outcome) :
  script w = NoAnswer e :: rest ->
  get_repositories parse owner token nrepos w =
  (Raises (exn_of e),
   mk_world rest (sent w ++ [get_request (org_url owner) token])
     (clock w) (utc_offset w) (slept w) (log w)).
Proof.
  intros Hs. apply get_repositories_probe_raises.
  unfold get_owner_repos_url, bind, requests_get. rewrite Hs. reflexivity.
Qed.

Lemma probe_failure_is_not_caught_witness :
  script Samples.w_refused_probe =
    NoAnswer ConnectionRefused :: [Answer Samples.page_2] /\
  get_repositories Samples.parse_iso Samples.owner None 0 Samples.w_refused_probe =
  (Raises ConnectionError,
   mk_world [Answer Samples.page_2] [get_request (org_url Samples.owner) None]
     1478185200000000 0 [] []).
Proof.
  split; [reflexivity|].
  exact (probe_failure_is_not_caught Samples.parse_iso Samples.owner None 0
           Samples.w_refused_probe ConnectionRefused [Answer Samples.page_2]
           eq_refl).
Defined.

(** X6. A probe answered 403 without [X-RateLimit-Reset] header ends
    [get_repositories] with a [KeyError], and one whose header is no
    numeral with a [ValueError]; in both cases nothing is slept and no
    page is asked for. *)
Theorem limit_without_reset_raises (parse : string -> Z) (owner : string)
  (token : option string) (nrepos : Z) (w : world) (r : response)
  (rest : list outcome) :
  script w = Answer r :: rest ->
  status_code r = 403 ->
  (getitem (headers r) "X-RateLimit-Reset" = Raises (KeyError "X-RateLimit-Reset") ->
   get_repositories parse owner token nrepos w =
   (Raises (KeyError "X-RateLimit-Reset"),
    mk_world rest (sent w ++ [get_request (org_url owner) token])
      (clock w) (utc_offset w) (slept w) (log w)))
  /\
  (forall v,
     getitem (headers r) "X-RateLimit-Reset" = Returns v ->
     int v = Raises ValueError ->
     get_repositories parse owner token nrepos w =
     (Raises ValueError,
      mk_world rest (sent w ++ [get_request (org_url owner) token])
        (clock w) (utc_offset w) (slept w) (log w))).
Proof.
  intros Hs H403.
  assert (Herr : http_error r) by (unfold http_error; lia).
  split.
  - intros Hv. apply get_repositories_probe_raises.
    unfold get_owner_repos_url, bind, requests_get, try_except.
    rewrite Hs, raise_for_status_error by assumption.
    simpl. rewrite H403. simpl. unfold lift. rewrite Hv. reflexivity.
  - intros v Hv Hint. apply get_repositories_probe_raises.
    unfold get_owner_repos_url, bind, requests_get, try_except.
    rewrite Hs, raise_for_status_error by assumption.
    simpl. rewrite H403. simpl. unfold lift. rewrite Hv, Hint. reflexivity.
Qed.

Lemma limit_without_reset_raises_witness :
  (exists w',
     get_repositories Samples.parse_iso Samples.owner None 0 Samples.w_no_reset =
     (Raises (KeyError "X-RateLimit-Reset"), w') /\
     slept w' = [] /\ List.length (sent w') = 1%nat)
  /\
  (exists w',
     get_repositories Samples.parse_iso Samples.owner None 0 Samples.w_bad_reset =
     (Raises ValueError, w') /\
     slept w' = [] /\ List.length (sent w') = 1%nat).
Proof.
  split.
  - destruct (limit_without_reset_raises Samples.parse_iso Samples.owner None 0
                Samples.w_no_reset Samples.limited_no_reset
                [Answer Samples.page_2] eq_refl eq_refl) as [H _].
    eexists. split; [exact (H eq_refl)|]. split; reflexivity.
  - destruct (limit_without_reset_raises Samples.parse_iso Samples.owner None 0
                Samples.w_bad_reset Samples.limited_bad_reset [] eq_refl eq_refl)
      as [_ H].
    eexists. split; [exact (H "soon" eq_refl eq_refl)|]. split; reflexivity.
Defined.

Lemma fetch_pages_raises (k : nat) (token : option string) (url : string)
  (all_repos : list repo) (w w' : world) (e : exn) :
  fetch_page token url all_repos w = (Raises e, w') ->
  fetch_pages (S k) token url all_repos w = (Raises e, w').
Proof.
  intros H. cbn [fetch_pages]. unfold bind. rewrite H. reflexivity.
Qed.

(** X7. When, after pages that were taken in, a page is answered with an
    HTTP error (a 403 included), [get_repositories] raises that
    [HTTPError]: the items of the pages gathered so far are not
    returned, no further request is sent, and nothing is slept. *)
Theorem http_error_on_page_is_raised (parse : string -> Z) (owner : string)
  (token : option string) (nrepos : Z) (w w1 : world) (url : string)
  (pages : list response) (bad : response) (rest : list outcome) :
  get_owner_repos_url owner token w = (Returns url, w1) ->
  Forall page_ok pages ->
  Forall has_next pages ->
  script w1 = map Answer pages ++ Answer bad :: rest ->
  http_error bad ->
  exists w',
    get_repositories parse owner token nrepos w =
    (Raises (HTTPError (status_code bad)), w') /\
    script w' = rest /\
    slept w' = slept w1 /\
    List.length (sent w') = (List.length (sent w1) + List.length pages + 1)%nat.
Proof.
  intros Hurl Hok Hnext Hs Hbad.
  assert (Hfuel : (List.length pages < S (List.length (script w1)))%nat).
  { rewrite Hs, length_app, length_map. lia. }
  destruct (fetch_pages_walk token pages _ url [] w1 _ Hok Hnext Hs Hfuel)
    as (url' & w2 & Hrun & Hscr & Hsent & _).
  destruct (S (List.length (script w1)) - List.length pages)%nat as [|k] eqn:Hk;
    [lia|].
  rewrite (fetch_pages_raises k _ _ _ _ _ _
             (fetch_page_http_error token url' _ w2 bad rest Hscr Hbad)) in Hrun.
  eexists. split;
    [exact (get_repositories_loop_raises parse _ _ _ _ _ _ _ _ Hurl Hrun)|].
  destruct (fetch_pages_frame _ _ _ _ _ _ _ Hrun) as (_ & _ & Hsl & _).
  cbn [script sent] in *. repeat split; [exact Hsl|].
  rewrite length_app. simpl. lia.
Qed.

Lemma http_error_on_page_is_raised_witness :
  exists w',
    get_repositories Samples.parse_iso Samples.owner None 0 Samples.w_error_page =
    (Raises (HTTPError 404), w') /\
    script w' = [Answer Samples.page_2] /\
    slept w' = [] /\
    List.length (sent w') = 3%nat.
Proof.
  assert (Hbad : http_error Samples.not_found) by (unfold http_error; simpl; lia).
  exact (http_error_on_page_is_raised Samples.parse_iso Samples.owner None 0
           Samples.w_error_page _ _ [Samples.page_1] Samples.not_found
           [Answer Samples.page_2] eq_refl sample_pages_ok sample_pages_next
           eq_refl Hbad).
Defined.

(** X8. When, after pages that were taken in, a page is answered without
    HTTP error but without [X-RateLimit-Remaining] header,
    [get_repositories] raises a [KeyError] for it, and none of the items
    gathered, that page's included, is returned. *)
Theorem page_without_remaining_header_raises (parse : string -> Z)
  (owner : string) (token : option string) (nrepos : Z) (w w1 : world)
  (url : string) (pages : list response) (bare : response)
  (rest : list outcome) :
  get_owner_repos_url owner token w = (Returns url, w1) ->
  Forall page_ok pages ->
  Forall has_next pages ->
  script w1 = map Answer pages ++ Answer bare :: rest ->
  ~ http_error bare ->
  getitem (headers bare) "X-RateLimit-Remaining" =
    Raises (KeyError "X-RateLimit-Remaining") ->
  exists w',
    get_repositories parse owner token nrepos w =
    (Raises (KeyError "X-RateLimit-Remaining"), w') /\
    script w' = rest.
Proof.
  intros Hurl Hok Hnext Hs Hfine Hv.
  assert (Hfuel : (List.length pages < S (List.length (script w1)))%nat).
  { rewrite Hs, length_app, length_map. lia. }
  destruct (fetch_pages_walk token pages _ url [] w1 _ Hok Hnext Hs Hfuel)
    as (url' & w2 & Hrun & Hscr & Hsent & _).
  destruct (S (List.length (script w1)) - List.length pages)%nat as [|k] eqn:Hk;
    [lia|].
  assert (Hpage : exists lg,
            fetch_page token url' ([] ++ List.concat (map json pages)) w2 =
            (Raises (KeyError "X-RateLimit-Remaining"),
             mk_world rest (sent w2 ++ [get_request url' token])
               (clock w2) (utc_offset w2) (slept w2) lg)).
  { eexists. unfold fetch_page, bind, logging, try_except, requests_get.
    cbn [script]. rewrite Hscr.
    rewrite raise_for_status_fine by assumption.
    unfold lift. rewrite Hv. reflexivity. }
  destruct Hpage as [lg Hpage].
  rewrite (fetch_pages_raises k _ _ _ _ _ _ Hpage) in Hrun.
  eexists. split;
    [exact (get_repositories_loop_raises parse _ _ _ _ _ _ _ _ Hurl Hrun)|].
  reflexivity.
Qed.

Lemma page_without_remaining_header_raises_witness :
  exists w',
    get_repositories Samples.parse_iso Samples.owner None 0 Samples.w_bare_page =
    (Raises (KeyError "X-RateLimit-Remaining"), w') /\
    script w' = [Answer Samples.page_2].
Proof.
  assert (Hfine : ~ http_error Samples.bare_page)
    by (unfold http_error; simpl; lia).
  exact (page_without_remaining_header_raises Samples.parse_iso Samples.owner
           None 0 Samples.w_bare_page _ _ [Samples.page_1] Samples.bare_page
           [Answer Samples.page_2] eq_refl sample_pages_ok sample_pages_next
           eq_refl Hfine eq_refl).
Defined.

(** *** The URLs the loop asks for *)
Lemma requested_app (url : string) (pages : list response) (last : response) :
  requested url (pages ++ [last]) =
  requested url pages ++ [fold_left (fun _ r => next_of r) pages url].
Proof.
  revert url. induction pages as [|r ps IH]; intros url; simpl; [reflexivity|].
  rewrite IH. reflexivity.
Qed.

Lemma fetch_pages_walk_urls (token : option string) (pages : list response) :
  forall (fuel : nat) (url : string) (all_repos : list repo) (w : world)
         (tail : list outcome),
    Forall page_ok pages -> Forall has_next pages ->
    script w = map Answer pages ++ tail ->
    (List.length pages < fuel)%nat ->
    exists w1,
      fetch_pages fuel token url all_repos w =
      fetch_pages (fuel - List.length pages) token
        (fold_left (fun _ r => next_of r) pages url)
        (all_repos ++ List.concat (map json pages)) w1 /\
      script w1 = tail /\
      sent w1 = sent w ++ map (fun u => get_request u token) (requested url pages).
Proof.
  induction pages as [|r ps IH]; intros fuel url acc w tail Hok Hnext Hs Hfuel.
  - exists w. simpl. rewrite !app_nil_r, Nat.sub_0_r. auto.
  - destruct fuel as [|fuel]; [simpl in Hfuel; lia|].
    inversion Hok as [|? ? Hr Hps]; subst.
    inversion Hnext as [|? ? Hn Hnps]; subst.
    simpl in Hs.
    destruct (fetch_page_ok token url acc w r _ Hs Hr) as [v Hpage].
    unfold has_next in Hn.
    destruct (links_next r) as [next_url|] eqn:Hlink; [|contradiction].
    assert (Hnx : next_of r = next_url)
      by (unfold next_of; rewrite Hlink; reflexivity).
    assert (Hlt : (List.length ps < fuel)%nat) by (simpl in Hfuel; lia).
    match type of Hpage with
    | _ = (_, ?w') =>
        destruct (IH fuel next_url (acc ++ json r) w' tail Hps Hnps eq_refl Hlt)
          as (w1 & Hrun & Hscr & Hsent)
    end.
    exists w1. cbn [fetch_pages fold_left requested List.length Nat.sub map List.concat].
    unfold bind at 1. rewrite Hpage, Hnx, Hrun.
    cbn [sent] in Hsent. rewrite Hsent, <- !app_assoc. auto.
Qed.

(** X9. When the pages [pages] arrive, each with a [next] link, and then
    a page without one, the requests of the loop go, in order, to the
    start URL and then to the [next] link of each page in turn; the
    query parameters and headers are sent along every time. *)
Theorem next_links_are_followed (parse : string -> Z) (owner : string)
  (token : option string) (nrepos : Z) (w w1 : world) (url : string)
  (pages : list response) (last : response) (rest : list outcome) :
  get_owner_repos_url owner token w = (Returns url, w1) ->
  Forall page_ok pages ->
  Forall has_next pages ->
  script w1 = map Answer (pages ++ [last]) ++ rest ->
  page_ok last -> links_next last = None ->
  exists w',
    get_repositories parse owner token nrepos w =
    (Returns (shape parse (List.concat (map json (pages ++ [last]))) nrepos), w') /\
    sent w' = sent w1 ++
              map (fun u => mk_request u get_payload (get_headers token))
                (requested url (pages ++ [last])).
Proof.
  intros Hurl Hok Hnext Hs Hlast Hnone.
  rewrite map_app, <- app_assoc in Hs. simpl in Hs.
  assert (Hfuel : (List.length pages < S (List.length (script w1)))%nat).
  { rewrite Hs, length_app, length_map. lia. }
  destruct (fetch_pages_walk_urls token pages _ url [] w1 _ Hok Hnext Hs Hfuel)
    as (w2 & Hrun & Hscr & Hsent).
  destruct (S (List.length (script w1)) - List.length pages)%nat as [|k] eqn:Hk;
    [lia|].
  destruct (fetch_pages_last k token (fold_left (fun _ r => next_of r) pages url)
              ([] ++ List.concat (map json pages)) w2 last rest Hscr Hlast Hnone)
    as [v Hstop].
  rewrite Hstop in Hrun. rewrite app_nil_l in Hrun.
  replace (List.concat (map json pages) ++ json last)
    with (List.concat (map json (pages ++ [last]))) in Hrun
    by (rewrite map_app, concat_app; simpl; rewrite app_nil_r; reflexivity).
  eexists. split;
    [exact (get_repositories_after_loop parse _ _ _ _ _ _ _ _ Hurl Hrun)|].
  cbn [sent]. rewrite Hsent, requested_app, map_app, <- app_assoc. reflexivity.
Qed.

Lemma next_links_are_followed_witness :
  exists w',
    get_repositories Samples.parse_iso Samples.owner None 0 Samples.w_full =
    (Returns (shape Samples.parse_iso
                (List.concat (map json ([Samples.page_1] ++ [Samples.page_2]))) 0),
     w') /\
    sent w' =
      [get_request (org_url Samples.owner) None] ++
      map (fun u => mk_request u get_payload (get_headers None))
        [org_url Samples.owner;
         "https://api.github.com/organizations/1/repos?page=2"].
Proof.
  refine (next_links_are_followed Samples.parse_iso Samples.owner None 0
            Samples.w_full _ _ [Samples.page_1] Samples.page_2
            [Answer Samples.page_2] eq_refl sample_pages_ok sample_pages_next
            eq_refl _ eq_refl).
  split; [unfold http_error; simpl; lia | exists "57"; reflexivity].
Defined.

(** *** [get_mordred_projects] and the [__main__] block *)
Lemma mordred_lists (owner_url : string) (repos : list repo) :
  forall git github : list string,
    fold_left
      (fun (lists : list string * list string) repo =>
         (fst lists ++ [(owner_url ++ name repo)%string],
          snd lists ++ [(owner_url ++ name repo)%string]))
      repos (git, github) =
    (git ++ map (fun repo => (owner_url ++ name repo)%string) repos,
     github ++ map (fun repo => (owner_url ++ name repo)%string) repos).
Proof.
  induction repos as [|r rs IH]; intros git github; simpl.
  - rewrite !app_nil_r. reflexivity.
  - rewrite IH. simpl. rewrite <- !app_assoc. reflexivity.
Qed.

Lemma get_mordred_projects_eq (owner : string) (repos : list repo) :
  get_mordred_projects owner repos =
  [(owner,
    [("git", map (fun repo => ((GITHUB_URL ++ "/" ++ owner ++ "/") ++ name repo)%string) repos);
     ("github", map (fun repo => ((GITHUB_URL ++ "/" ++ owner ++ "/") ++ name repo)%string) repos)])].
Proof.
  unfold get_mordred_projects. rewrite mordred_lists. reflexivity.
Qed.

(** X10. The projects of [get_mordred_projects] have one entry, for the
    owner, whose [git] and [github] lists are the same: one URL per
    repository, in the order of the repositories, made of the owner's
    GitHub URL and the repository name. *)
Theorem mordred_projects_list_each_repo (owner : string) (repos : list repo) :
  exists urls,
    get_mordred_projects owner repos =
      [(owner, [("git", urls); ("github", urls)])] /\
    urls = map (fun repo => ((GITHUB_URL ++ "/" ++ owner ++ "/") ++ name repo)%string)
             repos /\
    List.length urls = List.length repos.
Proof.
  eexists. split; [apply get_mordred_projects_eq|].
  split; [reflexivity | apply length_map].
Qed.

Lemma get_repositories_returns_shape (parse : string -> Z) (owner : string)
  (token : option string) (nrepos : Z) (w w' : world) (repos : list repo) :
  get_repositories parse owner token nrepos w = (Returns repos, w') ->
  exists all_repos, repos = shape parse all_repos nrepos.
Proof.
  intros Hrun.
  destruct (get_repositories_stages parse owner token nrepos w _ _ Hrun)
    as [(w1 & _ & H & _)|[(e & w1 & _ & H & _)|(url & w1 & Hurl & Hloop)]];
    try discriminate.
  destruct Hloop as [[_ H]|[(e & _ & H)|(all_repos & w2 & Hloop & Hres & _)]];
    try discriminate.
  inversion Hres. eauto.
Qed.



(** X12. A run of the script that finishes has fetched a list for the
    owner given; without [-m] it prints the names of that list, one per
    line and in its order, and with [-m] it logs and dumps one file,
    named after the owner, with one URL per repository of the list;
    either way at most [nrepos] entries when [nrepos > 0]. *)
Theorem main_lets_out_the_fetched_list (parse : string -> Z)
  (parsed : params) (w w' : world) (out : list output) :
  main parse parsed w = (Finished, out, w') ->
  exists owner repos,
    arg_owner parsed = Some owner /\
    get_repositories parse owner (arg_token parsed) (arg_nrepos parsed) w =
      (Returns repos, w') /\
    (0 < arg_nrepos parsed ->
     (List.length repos <= Z.to_nat (arg_nrepos parsed))%nat) /\
    out =
      if arg_mordred parsed
      then [Info_generating (owner ++ "-projects.json");
            Dump (owner ++ "-projects.json")
              [(owner,
                [("git",
                  map (fun repo => ((GITHUB_URL ++ "/" ++ owner ++ "/") ++ name repo)%string)
                    repos);
                 ("github",
                  map (fun repo => ((GITHUB_URL ++ "/" ++ owner ++ "/") ++ name repo)%string)
                    repos)])]]
      else map (fun repo => Print (name repo)) repos.
Proof.
  intros Hmain. unfold main, get_params in Hmain.
  destruct (arg_owner parsed) as [[|c o]|] eqn:Ho; try discriminate.
  destruct (get_repositories parse (String c o) (arg_token parsed)
              (arg_nrepos parsed) w) as [[repos| x |] w1] eqn:Hrun;
    try discriminate.
  exists (String c o), repos.
  assert (Hw : w1 = w' /\
               out = if arg_mordred parsed
                     then [Info_generating (String c o ++ "-projects.json");
                           Dump (String c o ++ "-projects.json")
                             (get_mordred_projects (String c o) repos)]
                     else map (fun repo => Print (name repo)) repos).
  { destruct (arg_mordred parsed); simpl in Hmain; inversion Hmain; auto. }
  destruct Hw as [-> ->].
  split; [reflexivity|]. split; [exact Hrun|]. split.
  - intros Hpos.
    destruct (get_repositories_returns_shape _ _ _ _ _ _ _ Hrun) as [all_repos ->].
    rewrite shape_length_eq. apply Z.ltb_lt in Hpos. rewrite Hpos.
    apply Nat.le_min_l.
  - rewrite get_mordred_projects_eq. reflexivity.
Qed.

Lemma main_lets_out_the_fetched_list_witness :
  main Samples.parse_iso Samples.args_plain Samples.w_full =
    (Finished, [Print "arthur"],
     snd (main Samples.parse_iso Samples.args_plain Samples.w_full))
  /\
  exists owner repos,
    arg_owner Samples.args_mordred = Some owner /\
    get_repositories Samples.parse_iso owner None 1 Samples.w_full =
      (Returns repos, snd (main Samples.parse_iso Samples.args_mordred Samples.w_full)) /\
    (0 < 1 -> (List.length repos <= Z.to_nat 1)%nat) /\
    [Info_generating "grimoirelab-projects.json";
     Dump "grimoirelab-projects.json"
       [("grimoirelab",
         [("git", ["https://github.com/grimoirelab/arthur"]);
          ("github", ["https://github.com/grimoirelab/arthur"])])]] =
    [Info_generating (owner ++ "-projects.json");
     Dump (owner ++ "-projects.json")
       [(owner,
         [("git",
           map (fun repo => ((GITHUB_URL ++ "/" ++ owner ++ "/") ++ name repo)%string)
             repos);
          ("github",
           map (fun repo => ((GITHUB_URL ++ "/" ++ owner ++ "/") ++ name repo)%string)
             repos)])]].
Proof.
  split; [vm_compute; reflexivity|].
  assert (Hmain : main Samples.parse_iso Samples.args_mordred Samples.w_full =
                  (Finished,
                   [Info_generating "grimoirelab-projects.json";
                    Dump "grimoirelab-projects.json"
                      [("grimoirelab",
                        [("git", ["https://github.com/grimoirelab/arthur"]);
                         ("github", ["https://github.com/grimoirelab/arthur"])])]],
                   snd (main Samples.parse_iso Samples.args_mordred Samples.w_full)))
    by (vm_compute; reflexivity).
  exact (main_lets_out_the_fetched_list Samples.parse_iso Samples.args_mordred
           Samples.w_full _ _ Hmain).
Defined.

End GetGitReposRuns.

(** ** More on [backend.py]: what a construction and a state write do *)
Module PercevalBackendRuns.
Import Py PercevalBackend.
Local Open Scope string_scope.
Local Open Scope list_scope.

(** *** [__init__] in closed form *)
Lemma init_success (cls : methods) (use_cache_arg incremental_arg : bool)
  (w : world) (id nm fid : string) :
  get_id cls = Some id -> _get_name cls = Some nm ->
  _get_field_unique_id cls = Some fid ->
  isdir w (join (home w) [".perceval"; nm; id]) = true \/ writable w = true ->
  __init__ cls use_cache_arg incremental_arg w =
  (Returns (mk_Backend (mk_CacheItems (join (home w) [".perceval"; nm; id]) fid)
              use_cache_arg false None),
   mk_world (home w)
     (if isdir w (join (home w) [".perceval"; nm; id]) then dirs w
      else join (home w) [".perceval"; nm; id] :: dirs w)
     (writable w)
     (if use_cache_arg then cache_items w
      else if incremental_arg then cache_items w else [])
     (es_puts w) (es_reachable w)
     (if use_cache_arg then log w
      else if incremental_arg then log w ++ [Info_restore_not_implemented]
      else log w)).
Proof.
  destruct cls as [i0 n0 f0]. destruct w as [hm ds wr ci ep er lg].
  cbn [get_id _get_name _get_field_unique_id home dirs writable].
  intros -> -> -> Hdir. unfold isdir in *. cbn [dirs] in *.
  cbv -[join existsb String.eqb].
  destruct (existsb (String.eqb (join hm [".perceval"; nm; id])) ds).
  - destruct use_cache_arg, incremental_arg; reflexivity.
  - destruct Hdir as [Hdir|Hdir]; [discriminate|]. subst wr.
    destruct use_cache_arg, incremental_arg; reflexivity.
Qed.

Lemma init_not_implemented (cls : methods) (use_cache_arg incremental_arg : bool)
  (w : world) :
  ~ implemented cls ->
  __init__ cls use_cache_arg incremental_arg w = (Raises NotImplementedError, w).
Proof.
  unfold implemented. intros Hn.
  destruct cls as [[id|] [nm|] [fid|]]; cbn in Hn;
    try reflexivity.
  exfalso. apply Hn. repeat split; discriminate.
Qed.

Lemma init_unwritable (cls : methods) (use_cache_arg incremental_arg : bool)
  (w : world) (id nm fid : string) :
  get_id cls = Some id -> _get_name cls = Some nm ->
  _get_field_unique_id cls = Some fid ->
  isdir w (join (home w) [".perceval"; nm; id]) = false ->
  writable w = false ->
  __init__ cls use_cache_arg incremental_arg w = (Raises OSError, w).
Proof.
  destruct cls as [i0 n0 f0]. destruct w as [hm ds wr ci ep er lg].
  cbn [get_id _get_name _get_field_unique_id home dirs writable].
  intros -> -> -> Hdir ->. unfold isdir in Hdir. cbn [dirs] in Hdir.
  cbv -[join existsb String.eqb]. rewrite Hdir. reflexivity.
Qed.

Lemma implemented_dec (cls : methods) :
  (exists id nm fid, get_id cls = Some id /\ _get_name cls = Some nm /\
                     _get_field_unique_id cls = Some fid) \/
  ~ implemented cls.
Proof.
  destruct cls as [[id|] [nm|] [fid|]]; unfold implemented;
    cbn [get_id _get_name _get_field_unique_id];
    try (right; intros (H1 & H2 & H3); congruence).
  left. exists id, nm, fid. auto.
Qed.

Lemma init_returns_only_if (cls : methods)
  (use_cache_arg incremental_arg : bool) (w : world) :
  (exists self w',
     __init__ cls use_cache_arg incremental_arg w = (Returns self, w')) ->
  (exists id nm fid,
     get_id cls = Some id /\ _get_name cls = Some nm /\
     _get_field_unique_id cls = Some fid /\
     (isdir w (join (home w) [".perceval"; nm; id]) = true \/ writable w = true)).
Proof.
  intros (self & w' & Hrun).
  destruct (implemented_dec cls) as [(id & nm & fid & H1 & H2 & H3)|Hn].
  - exists id, nm, fid. repeat split; try assumption.
    destruct (isdir w (join (home w) [".perceval"; nm; id])) eqn:Hd; [auto|].
    destruct (writable w) eqn:Hw; [auto|].
    rewrite (init_unwritable cls _ _ w id nm fid H1 H2 H3 Hd Hw) in Hrun.
    discriminate.
  - rewrite (init_not_implemented cls _ _ w Hn) in Hrun. discriminate.
Qed.

(** X13. [__init__] returns exactly when the class overrides [get_id],
    [_get_name] and [_get_field_unique_id], and the storage directory
    [~/.perceval/<name>/<id>] exists already or can be created. *)
Theorem init_returns_iff (cls : methods) (use_cache_arg incremental_arg : bool)
  (w : world) :
  (exists self w',
     __init__ cls use_cache_arg incremental_arg w = (Returns self, w')) <->
  (exists id nm fid,
     get_id cls = Some id /\ _get_name cls = Some nm /\
     _get_field_unique_id cls = Some fid /\
     (isdir w (join (home w) [".perceval"; nm; id]) = true \/ writable w = true)).
Proof.
  split; [apply init_returns_only_if|].
  - intros (id & nm & fid & H1 & H2 & H3 & Hdir).
    eexists _, _. apply (init_success cls _ _ w id nm fid); assumption.
Qed.

Lemma init_returns_iff_witness :
  (exists self w',
     __init__ Samples.git_class false true Samples.w_backend = (Returns self, w'))
  /\
  ~ (exists self w',
       __init__ Samples.git_class false true Samples.w_readonly = (Returns self, w')).
Proof.
  split.
  - apply (init_returns_iff Samples.git_class false true Samples.w_backend).
    exists "grimoirelab_perceval", "git", "commit".
    repeat split. right. reflexivity.
  - intros H.
    apply (init_returns_iff Samples.git_class false true Samples.w_readonly) in H.
    destruct H as (id & nm & fid & H1 & H2 & _ & [H|H]).
    + inversion H1; inversion H2; subst. vm_compute in H. discriminate.
    + discriminate.
Defined.



Lemma init_inv (cls : methods) (use_cache_arg incremental_arg : bool)
  (w w' : world) (self : Backend) :
  __init__ cls use_cache_arg incremental_arg w = (Returns self, w') ->
  exists id nm fid,
    get_id cls = Some id /\ _get_name cls = Some nm /\
    _get_field_unique_id cls = Some fid /\
    (isdir w (join (home w) [".perceval"; nm; id]) = true \/ writable w = true) /\
    self = mk_Backend (mk_CacheItems (join (home w) [".perceval"; nm; id]) fid)
             use_cache_arg false None /\
    w' = mk_world (home w)
           (if isdir w (join (home w) [".perceval"; nm; id]) then dirs w
            else join (home w) [".perceval"; nm; id] :: dirs w)
           (writable w)
           (if use_cache_arg then cache_items w
            else if incremental_arg then cache_items w else [])
           (es_puts w) (es_reachable w)
           (if use_cache_arg then log w
            else if incremental_arg then log w ++ [Info_restore_not_implemented]
            else log w).
Proof.
  intros Hrun.
  destruct (init_returns_only_if cls use_cache_arg incremental_arg w
              (ex_intro _ self (ex_intro _ w' Hrun)))
    as (id & nm & fid & H1 & H2 & H3 & Hdir).
  exists id, nm, fid.
  rewrite (init_success cls _ _ w id nm fid H1 H2 H3 Hdir) in Hrun.
  inversion Hrun; subst. auto 10.
Qed.

Lemma isdir_cons (w : world) (d : string) (ds : list string) :
  existsb (String.eqb d) (d :: ds) = true.
Proof. simpl. rewrite String.eqb_refl. reflexivity. Qed.



(** X16. A construction with [use_cache = True] leaves the cache and the
    log as they were: the cache is not cleaned and no state restore is
    attempted. *)
Theorem cache_replay_keeps_cache (cls : methods) (incremental_arg : bool)
  (w w' : world) (self : Backend) :
  __init__ cls true incremental_arg w = (Returns self, w') ->
  cache_items w' = cache_items w /\ log w' = log w.
Proof.
  intros Hrun.
  destruct (init_inv cls _ _ w w' self Hrun)
    as (id & nm & fid & _ & _ & _ & _ & _ & ->).
  split; reflexivity.
Qed.

Lemma cache_replay_keeps_cache_witness :
  exists self w',
    __init__ Samples.git_class true true Samples.w_backend = (Returns self, w') /\
    cache_items w' = [Samples.cached_item] /\ log w' = [].
Proof.
  assert (Hrun : exists self w',
             __init__ Samples.git_class true true Samples.w_backend =
             (Returns self, w'))
    by (eexists _, _; vm_compute; reflexivity).
  destruct Hrun as (self & w' & Hrun).
  exists self, w'. split; [exact Hrun|].
  exact (cache_replay_keeps_cache _ _ _ _ _ Hrun).
Defined.

(** X17. Once a construction has returned, a later construction of the
    same class on the same home and directories returns as well, even on
    a disk that can no longer be written, and creates no directory. *)
Theorem second_init_creates_nothing (cls : methods)
  (use_cache_arg incremental_arg : bool) (w w' : world) (self : Backend) :
  __init__ cls use_cache_arg incremental_arg w = (Returns self, w') ->
  forall (use_cache_2 incremental_2 : bool) (w2 : world),
    home w2 = home w -> dirs w2 = dirs w' ->
    exists self2 w3,
      __init__ cls use_cache_2 incremental_2 w2 = (Returns self2, w3) /\
      dirs w3 = dirs w2 /\
      cache_dir (cache self2) = cache_dir (cache self).
Proof.
  intros Hrun u2 i2 w2 Hhome Hdirs.
  destruct (init_inv cls _ _ w w' self Hrun)
    as (id & nm & fid & H1 & H2 & H3 & _ & -> & ->).
  cbn [dirs] in Hdirs.
  assert (Hd2 : isdir w2 (join (home w2) [".perceval"; nm; id]) = true).
  { unfold isdir at 1. rewrite Hhome, Hdirs.
    destruct (isdir w (join (home w) [".perceval"; nm; id])) eqn:Hd.
    - exact Hd.
    - apply isdir_cons; exact w. }
  eexists _, _. split;
    [apply (init_success cls u2 i2 w2 id nm fid H1 H2 H3 (or_introl Hd2))|].
  cbn [dirs cache cache_dir]. rewrite Hd2, Hhome. auto.
Qed.

Lemma second_init_creates_nothing_witness :
  exists self w' self2 w3,
    __init__ Samples.git_class false true Samples.w_backend = (Returns self, w') /\
    __init__ Samples.git_class true false
      (mk_world (home w') (dirs w') false (cache_items w') (es_puts w')
         (es_reachable w') (log w')) = (Returns self2, w3) /\
    dirs w3 = dirs w' /\
    cache_dir (cache self2) = cache_dir (cache self).
Proof.
  assert (Hrun : exists self w',
             __init__ Samples.git_class false true Samples.w_backend =
             (Returns self, w') /\ home w' = home Samples.w_backend)
    by (eexists _, _; vm_compute; split; reflexivity).
  destruct Hrun as (self & w' & Hrun & Hhome).
  destruct (second_init_creates_nothing _ _ _ _ _ _ Hrun true false
              (mk_world (home w') (dirs w') false (cache_items w') (es_puts w')
                 (es_reachable w') (log w')) Hhome eq_refl)
    as (self2 & w3 & H).
  exists self, w', self2, w3. split; [exact Hrun | exact H].
Defined.

(** *** [_items_state_to_es] *)
Lemma append_assoc (a b c : string) : ((a ++ b) ++ c = a ++ (b ++ c))%string.
Proof. induction a as [|x a IH]; simpl; [reflexivity | rewrite IH; reflexivity]. Qed.

Lemma append_nil_r (a : string) : (a ++ "" = a)%string.
Proof. induction a as [|x a IH]; simpl; [reflexivity | rewrite IH; reflexivity]. Qed.

Section Dumps.
Variable cls : methods.
Variable json_dumps : item -> string.

Lemma bulk_line_eq (fid : string) (bulk_json : string) (it : item) (id : string) :
  getitem it fid = Returns id ->
  bulk_line json_dumps fid bulk_json it =
  Returns (bulk_json ++ bulk_entry json_dumps id it)%string.
Proof.
  intros H. unfold bulk_line, bulk_entry. rewrite H.
  rewrite !append_assoc. reflexivity.
Qed.

Lemma bulk_lines_ok (fid : string) (json_items : list item) :
  forall bulk_json,
    Forall (has_key fid) json_items ->
    bulk_lines json_dumps fid bulk_json json_items =
    Returns (bulk_json ++
             fold_right
               (fun it rest => (bulk_entry json_dumps (id_of fid it) it ++ rest)%string)
               "" json_items)%string.
Proof.
  induction json_items as [|it rest IH]; intros acc Hall.
  - simpl. rewrite append_nil_r. reflexivity.
  - inversion Hall as [|? ? [id Hid] Hrest]; subst.
    cbn [bulk_lines fold_right]. rewrite (bulk_line_eq fid acc it id Hid).
    rewrite (IH _ Hrest). unfold id_of at 2. rewrite Hid.
    rewrite append_assoc. reflexivity.
Qed.

Lemma bulk_lines_missing (fid : string) (json_items : list item) :
  forall bulk_json,
    (exists it, In it json_items /\ ~ has_key fid it) ->
    bulk_lines json_dumps fid bulk_json json_items = Raises (KeyError fid).
Proof.
  induction json_items as [|it rest IH]; intros acc (bad & Hin & Hbad).
  - destruct Hin.
  - cbn [bulk_lines].
    destruct (GetGitReposFacts.getitem_cases it fid) as [[id Hid]|Hid].
    + rewrite (bulk_line_eq fid acc it id Hid).
      apply IH. exists bad. split; [|exact Hbad].
      destruct Hin as [<-|Hin]; [|exact Hin].
      exfalso. apply Hbad. exists id. exact Hid.
    + unfold bulk_line. rewrite Hid. reflexivity.
Qed.

Lemma bulk_lines_raises (fid : string) (json_items : list item) :
  forall bulk_json e,
    bulk_lines json_dumps fid bulk_json json_items = Raises e ->
    e = KeyError fid.
Proof.
  induction json_items as [|it rest IH]; intros acc e Hrun.
  - discriminate.
  - cbn [bulk_lines] in Hrun.
    destruct (GetGitReposFacts.getitem_cases it fid) as [[id Hid]|Hid].
    + rewrite (bulk_line_eq fid acc it id Hid) in Hrun. eapply IH. exact Hrun.
    + unfold bulk_line in Hrun. rewrite Hid in Hrun. congruence.
Qed.

(** X18. When one of the items lacks the unique-id key,
    [_items_state_to_es] raises a [KeyError] for that key and submits
    nothing: no part of the batch is written, also not the items that
    came before the one at fault. *)
Theorem missing_id_submits_nothing (self : Backend) (json_items : list item)
  (w : world) (fid nm : string) (es : Elastic) :
  _get_field_unique_id cls = Some fid ->
  _get_name cls = Some nm ->
  elastic self = Some es ->
  (exists it, In it json_items /\ ~ has_key fid it) ->
  exists w',
    _items_state_to_es cls json_dumps self json_items w =
      (Raises (KeyError fid), w') /\
    es_puts w' = es_puts w /\ cache_items w' = cache_items w.
Proof.
  intros Hfid Hnm Hes Hbad.
  destruct json_items as [|it rest];
    [destruct Hbad as (bad & Hin & _); destruct Hin|].
  unfold _items_state_to_es, abstract, lift, of_option, bind, logging.
  rewrite Hfid, Hes, Hnm.
  rewrite (bulk_lines_missing fid (it :: rest) "" Hbad).
  eexists. split; [reflexivity|]. split; reflexivity.
Qed.

(** X19. Given at least one item, each with the unique-id key, an
    [elastic] that is set and reachable, and a class with its methods,
    [_items_state_to_es] returns after one bulk write to
    [<index_url>/state/_bulk] whose body holds, for every item in order,
    the index directive with the item's id on one line and the dumped
    item on the next. *)
Theorem state_write_body (self : Backend) (json_items : list item)
  (w : world) (fid nm : string) (es : Elastic) :
  _get_field_unique_id cls = Some fid ->
  _get_name cls = Some nm ->
  elastic self = Some es ->
  json_items <> [] ->
  Forall (has_key fid) json_items ->
  es_reachable w = true ->
  _items_state_to_es cls json_dumps self json_items w =
  (Returns tt,
   mk_world (home w) (dirs w) (writable w) (cache_items w)
     (es_puts w ++
      [((index_url es ++ "/state/_bulk")%string,
        fold_right
          (fun it rest => (bulk_entry json_dumps (id_of fid it) it ++ rest)%string)
          "" json_items)])
     (es_reachable w)
     (log w ++ [Debug_adding_items (List.length json_items) nm
                  (index_url es ++ "/state/_bulk")%string])).
Proof.
  intros Hfid Hnm Hes Hne Hall Hup.
  destruct json_items as [|it rest]; [contradiction|].
  unfold _items_state_to_es, abstract, lift, of_option, bind, logging,
    requests_put.
  rewrite Hfid, Hes, Hnm.
  rewrite (bulk_lines_ok fid (it :: rest) "" Hall).
  cbn [es_reachable es_puts home dirs writable cache_items log].
  rewrite Hup. reflexivity.
Qed.

(** X20. Whatever it is given and however it ends, [_items_state_to_es]
    leaves the cache and the directories alone and submits at most one
    bulk write, which goes to [<index_url>/state/_bulk] of the [elastic]
    that was set. *)
Theorem state_write_frame (self : Backend) (json_items : list item)
  (w w' : world) (res : result unit) :
  _items_state_to_es cls json_dumps self json_items w = (res, w') ->
  cache_items w' = cache_items w /\ dirs w' = dirs w /\ home w' = home w /\
  (es_puts w' = es_puts w \/
   exists es bulk_json,
     elastic self = Some es /\
     es_puts w' = es_puts w ++ [((index_url es ++ "/state/_bulk")%string, bulk_json)]).
Proof.
  intros Hrun. destruct json_items as [|it rest].
  - inversion Hrun; subst. auto.
  - unfold _items_state_to_es, abstract, lift, of_option, bind, logging,
      requests_put in Hrun.
    destruct (_get_field_unique_id cls);
      [|inversion Hrun; subst; auto].
    destruct (elastic self) as [es|];
      [|inversion Hrun; subst; auto].
    destruct (_get_name cls);
      [|inversion Hrun; subst; auto].
    destruct (bulk_lines _ _ _ _);
      [|inversion Hrun; subst; auto|inversion Hrun; subst; auto].
    cbn [es_reachable es_puts home dirs writable cache_items log] in Hrun.
    destruct (es_reachable w); inversion Hrun; subst; cbn;
      repeat split; right; eauto.
Qed.

End Dumps.

Lemma missing_id_submits_nothing_witness :
  exists w',
    _items_state_to_es Samples.git_class Samples.dumps Samples.a_backend
      [Samples.cached_item; Samples.item_without_id] Samples.w_backend =
      (Raises (KeyError "commit"), w') /\
    es_puts w' = [] /\ cache_items w' = [Samples.cached_item].
Proof.
  apply (missing_id_submits_nothing Samples.git_class Samples.dumps
           Samples.a_backend [Samples.cached_item; Samples.item_without_id]
           Samples.w_backend "commit" "git" Samples.an_elastic
           eq_refl eq_refl eq_refl).
  exists Samples.item_without_id. split; [simpl; auto|].
  intros [id Hid]. discriminate.
Defined.

Lemma state_write_body_witness :
  exists bulk_json lg,
    _items_state_to_es Samples.git_class Samples.dumps Samples.a_backend
      [Samples.cached_item] Samples.w_backend =
    (Returns tt,
     mk_world "/home/acs" [] true [Samples.cached_item]
       [("http://127.0.0.1:9200/git/state/_bulk", bulk_json)] true lg).
Proof.
  eexists _, _.
  refine (state_write_body Samples.git_class Samples.dumps Samples.a_backend
            [Samples.cached_item] Samples.w_backend "commit" "git"
            Samples.an_elastic eq_refl eq_refl eq_refl _ _ eq_refl).
  - discriminate.
  - repeat constructor. exists "4b3c1f0". reflexivity.
Defined.

Lemma state_write_frame_witness :
  exists res w',
    _items_state_to_es Samples.git_class Samples.dumps Samples.a_backend
      [Samples.item_without_id] Samples.w_backend = (res, w') /\
    cache_items w' = [Samples.cached_item] /\ dirs w' = [] /\
    home w' = "/home/acs".
Proof.
  assert (Hrun : exists res w',
             _items_state_to_es Samples.git_class Samples.dumps Samples.a_backend
               [Samples.item_without_id] Samples.w_backend = (res, w'))
    by (eexists _, _; vm_compute; reflexivity).
  destruct Hrun as (res & w' & Hrun).
  destruct (state_write_frame _ _ _ _ _ _ _ Hrun) as (H1 & H2 & H3 & _).
  exists res, w'. auto.
Defined.

(** X21. A Backend as [__init__] leaves it has no [elastic]: asked to
    write a non-empty batch of state it raises an [AttributeError] and
    changes nothing.  After [set_elastic], which keeps the cache handle
    and the two flags, that error no longer arises. *)
Theorem fresh_backend_cannot_persist (cls : methods)
  (json_dumps : item -> string) (use_cache_arg incremental_arg : bool)
  (w w' : world) (self : Backend) (json_items : list item) :
  __init__ cls use_cache_arg incremental_arg w = (Returns self, w') ->
  json_items <> [] ->
  _items_state_to_es cls json_dumps self json_items w' =
    (Raises (AttributeError "elastic"), w')
  /\
  forall es,
    cache (set_elastic self es) = cache self /\
    use_cache (set_elastic self es) = use_cache self /\
    incremental (set_elastic self es) = incremental self /\
    forall res w'',
      _items_state_to_es cls json_dumps (set_elastic self es) json_items w' =
        (res, w'') ->
      res <> Raises (AttributeError "elastic").
Proof.
  intros Hrun Hne.
  destruct (init_inv cls _ _ w w' self Hrun)
    as (id & nm & fid & H1 & H2 & H3 & _ & Hself & _).
  destruct json_items as [|it rest]; [contradiction|]. split.
  - unfold _items_state_to_es, abstract, lift, of_option, bind.
    rewrite H3, Hself. reflexivity.
  - intros es. repeat split. intros res w'' Hput.
    unfold _items_state_to_es, abstract, lift, of_option, bind, logging,
      requests_put, set_elastic in Hput.
    rewrite H3, H2 in Hput. cbn [elastic] in Hput.
    destruct (bulk_lines json_dumps fid "" (it :: rest)) as [body| e |] eqn:Hb.
    + cbn [es_reachable] in Hput.
      destruct (es_reachable w'); inversion Hput; discriminate.
    + inversion Hput; subst.
      rewrite (bulk_lines_raises json_dumps fid _ _ _ Hb). discriminate.
    + inversion Hput; discriminate.
Qed.

Lemma fresh_backend_cannot_persist_witness :
  exists self w',
    __init__ Samples.git_class false true Samples.w_backend = (Returns self, w') /\
    _items_state_to_es Samples.git_class Samples.dumps self
      [Samples.cached_item] w' = (Raises (AttributeError "elastic"), w').
Proof.
  assert (Hrun : exists self w',
             __init__ Samples.git_class false true Samples.w_backend =
             (Returns self, w'))
    by (eexists _, _; vm_compute; reflexivity).
  destruct Hrun as (self & w' & Hrun).
  exists self, w'. split; [exact Hrun|].
  assert (Hne : [Samples.cached_item] <> []) by discriminate.
  exact (proj1 (fresh_backend_cannot_persist Samples.git_class Samples.dumps
                  false true Samples.w_backend w' self [Samples.cached_item]
                  Hrun Hne)).
Defined.

End PercevalBackendRuns.

(** ** More on [get_repository_filter] *)
Module ElkUtilsRuns.
Import Py ElkUtils.
Local Open Scope string_scope.
Local Open Scope list_scope.

(** X22. In the plain form [get_repository_filter] never calls
    [json.loads] and never raises: it returns the empty filter when the
    selected value is empty and otherwise the pair of [name], which is
    [tag] for the four sources keyed on it and [origin] for the others,
    and [value].  So in the plain form the filter matches all exactly
    when the selected value is empty. *)
Theorem plain_filter (json_loads : string -> option pyobj)
  (backend : perceval_backend_obj) (perceval_backend_name : string) :
  get_repository_filter json_loads (Some backend) perceval_backend_name false =
  Returns
    (if String.eqb (selected_value backend perceval_backend_name) ""
     then PDict []
     else PDict [("name",
                  PStr (if existsb (String.eqb perceval_backend_name)
                             ["meetup"; "nntp"; "stackexchange"; "jira"]
                        then "tag" else "origin"));
                 ("value", PStr (selected_value backend perceval_backend_name))])
  /\
  (get_repository_filter json_loads (Some backend) perceval_backend_name false =
     Returns (PDict []) <->
   selected_value backend perceval_backend_name = "").
Proof.
  assert (Hform :
    get_repository_filter json_loads (Some backend) perceval_backend_name false =
    Returns
      (if String.eqb (selected_value backend perceval_backend_name) ""
       then PDict []
       else PDict [("name",
                    PStr (if existsb (String.eqb perceval_backend_name)
                               ["meetup"; "nntp"; "stackexchange"; "jira"]
                          then "tag" else "origin"));
                   ("value", PStr (selected_value backend perceval_backend_name))])).
  { unfold get_repository_filter, selected_value.
    destruct (existsb _ _); reflexivity. }
  split; [exact Hform|]. rewrite Hform.
  destruct (String.eqb_spec (selected_value backend perceval_backend_name) "")
    as [He|He].
  - split; [intros _; exact He | reflexivity].
  - split; [intros H; discriminate | intros H; contradiction].
Qed.

(** X23. The filter depends on the backend object only through the
    value it selects: for the four sources keyed on the tag the origin
    is never looked at, and for every other source the tag is not. *)
Theorem filter_reads_selected_value_only (json_loads : string -> option pyobj)
  (backend_1 backend_2 : perceval_backend_obj) (perceval_backend_name : string)
  (term : bool) :
  selected_value backend_1 perceval_backend_name =
    selected_value backend_2 perceval_backend_name ->
  get_repository_filter json_loads (Some backend_1) perceval_backend_name term =
  get_repository_filter json_loads (Some backend_2) perceval_backend_name term.
Proof.
  unfold selected_value, get_repository_filter.
  destruct (existsb _ _); intros ->; reflexivity.
Qed.

Lemma filter_reads_selected_value_only_witness :
  selected_value Samples.jira_a "jira" = selected_value Samples.jira_b "jira" /\
  get_repository_filter Samples.loads (Some Samples.jira_a) "jira" false =
  get_repository_filter Samples.loads (Some Samples.jira_b) "jira" false.
Proof.
  assert (H : selected_value Samples.jira_a "jira" =
              selected_value Samples.jira_b "jira") by reflexivity.
  exact (conj H (filter_reads_selected_value_only Samples.loads Samples.jira_a
                   Samples.jira_b "jira" false H)).
Defined.

End ElkUtilsRuns.
